(** * FaderPort: a shallow embedding of [faderport.py]

    The Python module drives a Presonus FaderPort over MIDI.  This file
    embeds the button registry, the character matrix, the message
    callback and the control operations of class [FaderPort], and proves
    the properties the specification states about them.  It goes on to
    the display effects, port discovery and the demonstration subclass
    [TestFaderPort], with the properties the code itself shows.

    Conventions of the embedding:
    - Python [int] is [Z]; [<<], [>>], [|], [&] are [Z.shiftl],
      [Z.shiftr], [Z.lor], [Z.land].
    - Python [str] is [string], restricted to ASCII: [str.upper] and
      [str.title] are given by their effect on ASCII letters, every
      other byte is left as it is.
    - a [dict] is a [gmap]; a dict comprehension inserts in iteration
      order, so a later entry overrides an earlier one with the same key.
    - methods of [FaderPort] are computations in a state-and-exception
      monad over the object's attributes.
    - the six hooks are abstract in the source; the embedding takes them
      from a type class, one instance per concrete subclass. *)

From Stdlib Require Import ZArith Ascii String Lia.
From stdpp Require Import gmap strings list.

Local Open Scope string_scope.
Local Open Scope list_scope.
Local Open Scope Z_scope.

(** ** ASCII case mapping, [str.upper], [str.lower], [str.title] *)

Definition is_ascii_upper (a : ascii) : bool :=
  let n := nat_of_ascii a in (65 <=? n)%nat && (n <=? 90)%nat.

Definition is_ascii_lower (a : ascii) : bool :=
  let n := nat_of_ascii a in (97 <=? n)%nat && (n <=? 122)%nat.

(** [str.isalpha] on one ASCII character; the cased characters of ASCII. *)
Definition is_cased (a : ascii) : bool := is_ascii_upper a || is_ascii_lower a.

Definition ascii_upper (a : ascii) : ascii :=
  if is_ascii_lower a then ascii_of_nat (nat_of_ascii a - 32) else a.

Definition ascii_lower (a : ascii) : ascii :=
  if is_ascii_upper a then ascii_of_nat (nat_of_ascii a + 32) else a.

Fixpoint str_upper (s : string) : string :=
  match s with
  | EmptyString => EmptyString
  | String a s' => String (ascii_upper a) (str_upper s')
  end.

Fixpoint str_lower (s : string) : string :=
  match s with
  | EmptyString => EmptyString
  | String a s' => String (ascii_lower a) (str_lower s')
  end.

(** [str.title]: a character that follows a cased character is
    lower-cased, any other character is title-cased (upper-cased, in
    ASCII).  [previous_is_cased] is the flag CPython carries along. *)
Fixpoint title_from (previous_is_cased : bool) (s : string) : string :=
  match s with
  | EmptyString => EmptyString
  | String a s' =>
      String (if previous_is_cased then ascii_lower a else ascii_upper a)
             (title_from (is_cased a) s')
  end.

Definition str_title (s : string) : string := title_from false s.

(** The strings on which the three functions above are Python's: those
    made of ASCII characters only.  (Outside ASCII Python has case
    mappings of its own, the Kelvin sign to "k" for one, which the
    functions above do not follow.) *)
Definition is_ascii_char (a : ascii) : bool := (nat_of_ascii a <? 128)%nat.

Fixpoint str_is_ascii (s : string) : bool :=
  match s with
  | EmptyString => true
  | String a s' => is_ascii_char a && str_is_ascii s'
  end.

(** ** The button registry *)

Record Button := mkButton { name : string; press : Z; light : Z }.

#[global] Instance Button_eq_dec : EqDecision Button.
Proof. solve_decision. Defined.

(** The FaderPort buttons, in the order that snakes down the panel. *)
Definition BUTTONS : list Button := [
  mkButton "Mute" 18 21;
  mkButton "Solo" 17 22;
  mkButton "Rec" 16 23;
  mkButton "Output" 22 17;
  mkButton "Chan Up" 21 18;
  mkButton "Bank" 20 19;
  mkButton "Chan Down" 19 20;
  mkButton "Read" 10 13;
  mkButton "Write" 9 14;
  mkButton "Touch" 8 15;
  mkButton "Off" 23 16;
  mkButton "Undo" 14 9;
  mkButton "Trns" 13 10;
  mkButton "Proj" 12 11;
  mkButton "Mix" 11 12;
  mkButton "Shift" 2 5;
  mkButton "Punch" 1 6;
  mkButton "User" 0 7;
  mkButton "Loop" 15 8;
  mkButton "Record" 7 0;
  mkButton "Play" 6 1;
  mkButton "Stop" 5 2;
  mkButton "Fast Fwd" 4 3;
  mkButton "Rewind" 3 4
].

(** [{key(x): x for x in l}]: entries are inserted in list order. *)
Definition dict_of `{Countable K} {V : Type} (key : V -> K) (l : list V) : gmap K V :=
  foldl (fun m x => <[key x := x]> m) ∅ l.

(** The name table with its alias: ["Rec Arm"] is bound to the entry
    read at ["Rec"].  That read finds its key ([Rec_is_registered]
    below), so the second branch is never taken. *)
Definition _button_from_name : gmap string Button :=
  let d := dict_of name BUTTONS in
  match d !! "Rec" with
  | Some rec => <["Rec Arm" := rec]> d
  | None => d
  end.

Definition _button_from_press : gmap Z Button := dict_of press BUTTONS.

(** Python exceptions the embedded code can raise. *)
Inductive exn : Type :=
| KeyError (key : string)
| IndexError
| AttributeError.

Inductive result (A : Type) : Type :=
| Ok (a : A)
| Raise (e : exn).
Arguments Ok {A} a.
Arguments Raise {A} e.

(** [d[k]] on a dict with string keys: a missing key raises [KeyError]. *)
Definition dict_getitem {V : Type} (d : gmap string V) (k : string) : result V :=
  match d !! k with
  | Some v => Ok v
  | None => Raise (KeyError k)
  end.

(** [k in d] *)
Definition dict_contains {V : Type} (d : gmap string V) (k : string) : bool :=
  match d !! k with
  | Some _ => true
  | None => false
  end.

(** [{k1: v1, k2: v2, ...}]: entries are inserted in the order written. *)
Definition dict_literal {V : Type} (l : list (string * V)) : gmap string V :=
  foldl (fun m kv => <[kv.1 := kv.2]> m) ∅ l.

(** Given a button name return the corresponding Button. *)
Definition button_from_name (name : string) : result Button :=
  dict_getitem _button_from_name (str_title name).

(** Given a button press value return the corresponding button:
    [_button_from_press.get(press, None)]. *)
Definition button_from_press (press : Z) : option Button :=
  _button_from_press !! press.

(** ** The character matrix

    [CHARACTERS] maps a character to the indices of the buttons that
    display it, as a dot matrix, when lit. *)
Definition CHARACTERS : gmap string (list Z) := dict_literal [
  ("0", [0; 1; 3; 6; 7; 9; 10; 11; 13; 14; 15; 18; 20; 21; 22]);
  ("1", [1; 4; 5; 9; 12; 17; 19; 20; 21; 22]);
  ("2", [0; 1; 3; 6; 10; 12; 16; 19; 20; 21; 22; 23]);
  ("3", [0; 1; 3; 6; 9; 11; 15; 18; 20; 21; 22]);
  ("4", [1; 4; 5; 7; 9; 11; 12; 13; 14; 17; 20; 21]);
  ("5", [0; 1; 2; 6; 7; 8; 9; 11; 15; 18; 20; 21; 22]);
  ("6", [0; 1; 2; 6; 7; 8; 9; 11; 14; 15; 18; 20; 21; 22]);
  ("7", [3; 4; 5; 6; 10; 12; 16; 23]);
  ("8", [0; 1; 3; 6; 8; 9; 11; 14; 15; 18; 20; 21; 22]);
  ("9", [0; 1; 3; 6; 8; 9; 10; 11; 15; 18; 20; 21; 22]);
  ("A", [4; 5; 7; 10; 11; 12; 13; 14; 15; 18; 19; 23]);
  ("B", [4; 5; 6; 7; 10; 12; 13; 14; 15; 18; 20; 21; 22; 23]);
  ("C", [4; 5; 7; 10; 14; 15; 18; 20; 21; 22]);
  ("D", [4; 5; 6; 7; 10; 11; 14; 15; 18; 20; 21; 22; 23]);
  ("E", [4; 5; 6; 7; 13; 14; 15; 20; 21; 22; 23]);
  ("F", [4; 5; 6; 7; 13; 14; 15; 23])
].

(** ** MIDI messages

    A [mido.Message] is represented by its type and the fields the
    module reads or writes; the channel, which the module never touches,
    is left out.  [other_type] stands for every message type the callback
    has no case for ([note_on], [sysex], ...). *)
Inductive Message : Type :=
| polytouch (note value : Z)
| control_change (control value : Z)
| pitchwheel (pitch : Z)
| other_type (type : string).

(** ** The session object

    [outport] is [None] until [open] has run; once open it is the log of
    the messages handed to [outport.send], oldest first.  [stdout] is the
    log of the messages printed as unhandled.  [app] holds whatever the
    concrete subclass adds to the object. *)
Record FaderPort (App : Type) : Type := mkFaderPort {
  outport : option (list Message);
  _fader : Z;
  _msb : Z;
  stdout : list Message;
  app : App
}.
Arguments mkFaderPort {App}.
Arguments outport {App}.
Arguments _fader {App}.
Arguments _msb {App}.
Arguments stdout {App}.
Arguments app {App}.

(** [FaderPort.__init__], given the attributes of the subclass. *)
Definition __init__ {App : Type} (a : App) : FaderPort App :=
  mkFaderPort None 0 0 [] a.

(** A method: it runs on the object, returns or raises, and leaves the
    object as mutated up to that point. *)
Definition M (App A : Type) : Type := FaderPort App -> result A * FaderPort App.

#[global] Instance M_ret {App} : MRet (M App) :=
  fun A a s => (Ok a, s).

#[global] Instance M_bind {App} : MBind (M App) :=
  fun A B k m s =>
    match m s with
    | (Ok a, s') => k a s'
    | (Raise e, s') => (Raise e, s')
    end.

Definition lift_result {App A} (r : result A) : M App A := fun s => (r, s).

(** [for x in l: body(x)] *)
Fixpoint for_each {App A} (l : list A) (body : A -> M App unit) : M App unit :=
  match l with
  | [] => mret ()
  | x :: l' => body x ;; for_each l' body
  end.

(** [l[i]] on a Python list: a negative index counts from the end, an
    index out of range raises [IndexError]. *)
Definition list_getitem {A} (l : list A) (i : Z) : result A :=
  let n := Z.of_nat (length l) in
  let j := if i <? 0 then i + n else i in
  if (0 <=? j) && (j <? n) then
    match l !! Z.to_nat j with
    | Some x => Ok x
    | None => Raise IndexError
    end
  else Raise IndexError.

Section Attributes.
Context {App : Type}.

(** Assignment to one attribute of the object. *)
Definition with_outport (o : option (list Message)) (s : FaderPort App) : FaderPort App :=
  mkFaderPort o (_fader s) (_msb s) (stdout s) (app s).
Definition with_fader (v : Z) (s : FaderPort App) : FaderPort App :=
  mkFaderPort (outport s) v (_msb s) (stdout s) (app s).
Definition with_msb (v : Z) (s : FaderPort App) : FaderPort App :=
  mkFaderPort (outport s) (_fader s) v (stdout s) (app s).
Definition with_stdout (l : list Message) (s : FaderPort App) : FaderPort App :=
  mkFaderPort (outport s) (_fader s) (_msb s) l (app s).
Definition with_app (a : App) (s : FaderPort App) : FaderPort App :=
  mkFaderPort (outport s) (_fader s) (_msb s) (stdout s) a.

Definition get__fader : M App Z := fun s => (Ok (_fader s), s).
Definition get__msb : M App Z := fun s => (Ok (_msb s), s).
Definition set__fader (v : Z) : M App unit := fun s => (Ok (), with_fader v s).
Definition set__msb (v : Z) : M App unit := fun s => (Ok (), with_msb v s).

(** [self.outport.send(m)]: on a session that was never opened
    [self.outport] is [None] and the attribute lookup raises. *)
Definition outport_send (m : Message) : M App unit := fun s =>
  match outport s with
  | Some sent => (Ok (), with_outport (Some (sent ++ [m])) s)
  | None => (Raise AttributeError, s)
  end.

(** [print('Unhandled:', msg)] *)
Definition print_unhandled (m : Message) : M App unit := fun s =>
  (Ok (), with_stdout (stdout s ++ [m]) s).
End Attributes.

(** The abstract methods of [FaderPort]: a concrete subclass supplies
    all six. *)
Class Hooks (App : Type) : Type := {
  on_open : M App unit;
  on_close : M App unit;
  on_rotary : Z -> M App unit;
  on_button : Button -> bool -> M App unit;
  on_fader_touch : bool -> M App unit;
  on_fader : Z -> M App unit
}.

Section FaderPort.
Context {App : Type} `{Hooks App}.

(** Open the FaderPort and register the callback.  Finding and opening
    the two MIDI ports is [mido]'s part; the embedding takes the case
    where both open, with nothing sent yet. *)
Definition open : M App unit :=
  (fun s => (Ok (), with_outport (Some []) s)) ;;
  on_open.

(** Callback function to handle incoming MIDI messages. *)
Definition _message_callback (msg : Message) : M App unit :=
  match msg with
  | polytouch note value =>
      match button_from_press note with
      | Some button => on_button button (negb (value =? 0))
      | None =>
          if note =? 127 then on_fader_touch (negb (value =? 0))
          else mret ()
      end
  | control_change control value =>
      if control =? 0 then set__msb value
      else if control =? 32 then
        msb ← get__msb;
        set__fader (Z.lor (msb ≪ 7) value ≫ 4) ;;
        f ← get__fader;
        on_fader f
      else print_unhandled msg
  | pitchwheel pitch => on_rotary (if pitch <? 0 then 1 else -1)
  | other_type _ => print_unhandled msg
  end.

(** The [fader] property, getter. *)
Definition fader : M App Z := get__fader.

(** The [fader] property, setter: move the fader to a new position. *)
Definition fader_set (value : Z) : M App unit :=
  set__fader (if (0 <? value) && (value <? 1024) then value else 0) ;;
  f ← get__fader;
  outport_send (control_change 0 (f ≫ 7)) ;;
  f ← get__fader;
  outport_send (control_change 32 (Z.land f 127)).

Definition light_on (button : Button) : M App unit :=
  outport_send (polytouch (light button) 1).

Definition light_off (button : Button) : M App unit :=
  outport_send (polytouch (light button) 0).

Definition all_off : M App unit := for_each BUTTONS light_off.

Definition all_on : M App unit := for_each BUTTONS light_on.

(** Use button lights (as matrix) to display a hex character. *)
Definition char_on (c : string) : M App unit :=
  if dict_contains CHARACTERS (str_upper c) then
    glyph ← lift_result (dict_getitem CHARACTERS (str_upper c));
    for_each glyph (fun i =>
      button ← lift_result (list_getitem BUTTONS i);
      light_on button)
  else mret ().
End FaderPort.

(** ** A recording subclass

    The subclass a test would write: every hook appends the call it
    received to a log kept on the object, and does nothing else. *)
Inductive HookCall : Type :=
| call_on_open
| call_on_close
| call_on_rotary (direction : Z)
| call_on_button (button : Button) (state : bool)
| call_on_fader_touch (state : bool)
| call_on_fader (value : Z).

Definition record_call (c : HookCall) : M (list HookCall) unit := fun s =>
  (Ok (), with_app (app s ++ [c]) s).

#[global] Instance Recorder : Hooks (list HookCall) := {|
  on_open := record_call call_on_open;
  on_close := record_call call_on_close;
  on_rotary := fun direction => record_call (call_on_rotary direction);
  on_button := fun button state => record_call (call_on_button button state);
  on_fader_touch := fun state => record_call (call_on_fader_touch state);
  on_fader := fun value => record_call (call_on_fader value)
|}.

Abbreviation Session := (FaderPort (list HookCall)).

(** The hook calls a session has logged. *)
Definition calls (s : Session) : list HookCall := app s.

(** The object after a method has run on it. *)
Definition after {App A} (m : M App A) (s : FaderPort App) : FaderPort App := (m s).2.

(** A session is open when it has an output port. *)
Definition is_open {App} (s : FaderPort App) : Prop := is_Some (outport s).

(** The callback handling the messages of [msgs], one after the other,
    up to the first one whose handling raises. *)
Definition receive `{Hooks App} (msgs : list Message) : M App unit :=
  for_each msgs _message_callback.


(** ** Scenarios of the specification *)

(** The session of the end-to-end scenario: created, opened, and then
    handed a field-A message with value 10 and a field-B message with
    value 64. *)
Definition end_to_end_session : Session :=
  after (open ;; receive [control_change 0 10; control_change 32 64]) (__init__ []).

(** The round trip of the specification.  [encode V] is what the setter
    sends for [V] on a session that has just been opened; [decode] is
    the position a new session has cached once the callback has handled
    the given messages. *)
Definition encode (V : Z) : list Message :=
  default [] (outport (after (fader_set V) (with_outport (Some []) (__init__ ())))).

Definition decode (fields : list Message) : Z :=
  _fader (after (receive fields) (__init__ ([] : list HookCall))).



(** ** Port discovery *)

(** Find the MIDI input name for a connected FaderPort.  [input_names]
    is the list [mido.get_input_names()] returns. *)
Definition find_faderport_input_name (input_names : list string) (number : Z)
    : result (option string) :=
  let ins := List.filter (fun i => String.prefix "faderport" (str_lower i)) input_names in
  if (0 <=? number) && (number <? Z.of_nat (length ins)) then
    match list_getitem ins number with
    | Ok i => Ok (Some i)
    | Raise e => Raise e
    end
  else Ok None.

(** Find the MIDI output name for a connected FaderPort.  [output_names]
    is the list [mido.get_output_names()] returns. *)
Definition find_faderport_output_name (output_names : list string) (number : Z)
    : result (option string) :=
  let outs := List.filter (fun i => String.prefix "faderport" (str_lower i)) output_names in
  if (0 <=? number) && (number <? Z.of_nat (length outs)) then
    match list_getitem outs number with
    | Ok i => Ok (Some i)
    | Raise e => Raise e
    end
  else Ok None.

(** ** Iterators

    [itertools.cycle] over a list that has a first item: the iterator is
    that list and the number of items taken from it so far.  (Over an
    empty list the first [next] raises [StopIteration]; the module only
    cycles over a list literal of twelve buttons.) *)
Record cycle_iter (A : Type) : Type := mk_cycle {
  cycle_first : A;
  cycle_rest : list A;
  taken : nat
}.
Arguments mk_cycle {A}.
Arguments cycle_first {A}.
Arguments cycle_rest {A}.
Arguments taken {A}.

Definition cycle {A} (x : A) (l : list A) : cycle_iter A := mk_cycle x l 0.

(** [next(it)]: the item, and the iterator as it is afterwards. *)
Definition next {A} (it : cycle_iter A) : A * cycle_iter A :=
  (nth (taken it mod S (length (cycle_rest it)))
       (cycle_first it :: cycle_rest it) (cycle_first it),
   mk_cycle (cycle_first it) (cycle_rest it) (S (taken it))).

(** Advance the iterator n steps ahead: the branch of [consume] for an
    [n] that is a count.  ([islice] takes the [n] items and drops them.) *)
Definition consume {A} (it : cycle_iter A) (n : nat) : cycle_iter A :=
  Nat.iter n (fun it' => (next it').2) it.

(** [range(n)] *)
Definition range (n : Z) : list Z := map Z.of_nat (seq 0 (Z.to_nat n)).

(** The characters of a string, as a [for] loop over it yields them. *)
Fixpoint str_chars (s : string) : list string :=
  match s with
  | EmptyString => []
  | String a s' => String a EmptyString :: str_chars s'
  end.

(** ** Display effects

    [time.sleep(d)] with a delay that is not negative waits and returns,
    and leaves the object as it is; the wait is not represented.  The
    effects below are embedded for such delays (the defaults are), so
    they do not carry the delay along. *)
Definition time_sleep {App} : M App unit := mret ().

Section Effects.
Context {App : Type}.

(** Turn the button lights on then off in a snakelike sequence. *)
Definition snake : M App unit :=
  for_each BUTTONS (fun button => light_on button ;; time_sleep) ;;
  for_each (rev BUTTONS) (fun button => light_off button ;; time_sleep).

(** Blink all the lights on and off at once, [n] times. *)
Definition blink (n : Z) : M App unit :=
  for_each (range n) (fun _ =>
    all_on ;; time_sleep ;; all_off ;; time_sleep).

(** Display a numeric countdown from 5. *)
Definition countdown : M App unit :=
  for_each (str_chars "54321") (fun c =>
    char_on c ;; time_sleep ;; all_off ;; time_sleep).

(** One pass of [for it in its: button = next(it); self.light_on(button)];
    the result is the iterators as the pass leaves them. *)
Fixpoint chase_pass (its : list (cycle_iter Button))
    : M App (list (cycle_iter Button)) :=
  match its with
  | [] => mret []
  | it :: its' =>
      light_on (next it).1 ;;
      rest ← chase_pass its';
      mret ((next it).2 :: rest)
  end.

(** [for x in range(ticks): ...] of [chase]. *)
Fixpoint chase_ticks (xs : list Z) (its : list (cycle_iter Button)) : M App unit :=
  match xs with
  | [] => mret ()
  | _ :: xs' =>
      its' ← chase_pass its;
      time_sleep ;;
      all_off ;;
      chase_ticks xs' its'
  end.

(** Display an animated light chaser pattern. *)
Definition chase (num_lights ticks : Z) : M App unit :=
  b0 ← lift_result (button_from_name "Chan Down");
  b1 ← lift_result (button_from_name "Bank");
  b2 ← lift_result (button_from_name "Chan Up");
  b3 ← lift_result (button_from_name "Output");
  b4 ← lift_result (button_from_name "Off");
  b5 ← lift_result (button_from_name "Undo");
  b6 ← lift_result (button_from_name "Loop");
  b7 ← lift_result (button_from_name "User");
  b8 ← lift_result (button_from_name "Punch");
  b9 ← lift_result (button_from_name "Shift");
  b10 ← lift_result (button_from_name "Mix");
  b11 ← lift_result (button_from_name "Read");
  let seq := [b0; b1; b2; b3; b4; b5; b6; b7; b8; b9; b10; b11] in
  let num_lights := if existsb (Z.eqb num_lights) [1; 2; 3; 4] then num_lights else 2 in
  let its := map (fun _ => cycle b0 [b1; b2; b3; b4; b5; b6; b7; b8; b9; b10; b11])
                 (range num_lights) in
  let its := imap (fun i it =>
                     if (i =? 0)%nat then it
                     else consume it (i * (length seq / Z.to_nat num_lights))) its in
  chase_ticks (range ticks) its.
End Effects.

(** ** The demonstration subclass

    [TestFaderPort] adds three attributes and prints a line in every
    hook.  The lines it prints are kept, in order, in [test_stdout]. *)
Inductive Line : Type :=
| line_opened
| line_closing
| line_pan (clockwise : bool)
| line_button (name : string) (pressed : bool)
| line_fader_touch (touched : bool)
| line_fader (position : Z).

Record TestState : Type := mkTestState {
  _shift : bool;
  cycling : bool;
  should_exit : bool;
  test_stdout : list Line
}.

Abbreviation TestFaderPort := (FaderPort TestState).

(** [TestFaderPort.__init__] *)
Definition TestFaderPort__init__ : TestFaderPort :=
  __init__ (mkTestState false false false []).

Definition print_line (l : Line) : M TestState unit := fun s =>
  (Ok (), with_app (mkTestState (_shift (app s)) (cycling (app s)) (should_exit (app s))
                      (test_stdout (app s) ++ [l])) s).

Definition set__shift (b : bool) : M TestState unit := fun s =>
  (Ok (), with_app (mkTestState b (cycling (app s)) (should_exit (app s))
                      (test_stdout (app s))) s).

Definition set_should_exit (b : bool) : M TestState unit := fun s =>
  (Ok (), with_app (mkTestState (_shift (app s)) (cycling (app s)) b
                      (test_stdout (app s))) s).

(** The [shift] property. *)
Definition shift : M TestState bool := fun s => (Ok (_shift (app s)), s).

Definition get_cycling : M TestState bool := fun s => (Ok (cycling (app s)), s).

Definition test_on_rotary (direction : Z) : M TestState unit :=
  print_line (line_pan (0 <? direction)) ;;
  sh ← shift;
  if sh : bool then
    if 0 <? direction then
      f ← fader;
      if f <? 1023 then
        f ← fader;
        fader_set (f + 1)
      else mret ()
    else
      f ← fader;
      fader_set (f - 1)
  else mret ().

Definition test_on_button (button : Button) (state : bool) : M TestState unit :=
  print_line (line_button (name button) state) ;;
  (if String.eqb (name button) "Shift" then
     sh ← shift;
     set__shift (negb sh)
   else mret ()) ;;
  (if String.eqb (name button) "Off" && negb state then set_should_exit true
   else mret ()) ;;
  cy ← get_cycling;
  if negb cy then
    if state then light_on button else light_off button
  else mret ().

Definition test_on_fader (value : Z) : M TestState unit :=
  f ← fader;
  print_line (line_fader f).

#[global] Instance TestHooks : Hooks TestState := {|
  on_open := print_line line_opened;
  on_close := print_line line_closing;
  on_rotary := test_on_rotary;
  on_button := test_on_button;
  on_fader_touch := fun state => print_line (line_fader_touch state);
  on_fader := test_on_fader
|}.

(** ** Reading a log of sent messages *)

(** The value of the last polytouch message of the log addressed to
    [note], if there is one: what the light with that code was last told. *)
Definition last_told (note : Z) (log : list Message) : option Z :=
  foldl (fun acc m =>
           match m with
           | polytouch n v => if n =? note then Some v else acc
           | _ => acc
           end) None log.

(** What [mido] hands to the callback: data bytes are 7 bits wide, the
    pitch of a pitchwheel message is a signed 14-bit number. *)
Definition data_byte (v : Z) : Prop := 0 <= v <= 127.

Definition from_mido (m : Message) : Prop :=
  match m with
  | polytouch note value => data_byte note /\ data_byte value
  | control_change control value => data_byte control /\ data_byte value
  | pitchwheel pitch => -8192 <= pitch <= 8191
  | other_type _ => True
  end.

(** The state the callback keeps: the pending half is a data byte and
    the cached position has 10 bits. *)
Definition session_ok {App} (s : FaderPort App) : Prop :=
  data_byte (_msb s) /\ 0 <= _fader s <= 1023.

(** A method sends [msgs] when, on every open session, it returns
    normally having handed exactly these messages, in order, to the
    output port, and having changed nothing else. *)
Definition sends {App} (m : M App unit) (msgs : list Message) : Prop :=
  forall (s : FaderPort App) (sent : list Message),
    outport s = Some sent ->
    m s = (Ok (), with_outport (Some (sent ++ msgs)) s).

(** The light-on and the light-off message of a button. *)
Definition on_message (b : Button) : Message := polytouch (light b) 1.
Definition off_message (b : Button) : Message := polytouch (light b) 0.

(** A method fails unopened when, on every session that was never
    opened, it raises [AttributeError] and leaves the object as it was. *)
Definition fails_unopened {App} (m : M App unit) : Prop :=
  forall s : FaderPort App,
    outport s = None -> m s = (Raise AttributeError, s).

(** The light-on messages of the buttons at the indices of a glyph, and
    of the glyph of a character (none for a character without glyph). *)
Definition glyph_messages (glyph : list Z) : list Message :=
  flat_map (fun i => match list_getitem BUTTONS i with
                     | Ok b => [on_message b]
                     | Raise _ => []
                     end) glyph.

Definition char_messages (c : string) : list Message :=
  match CHARACTERS !! str_upper c with
  | Some glyph => glyph_messages glyph
  | None => []
  end.

(** The buttons [chase] runs through, in its order, and their light
    codes. *)
Definition chase_seq : list Button := [
  mkButton "Chan Down" 19 20; mkButton "Bank" 20 19; mkButton "Chan Up" 21 18;
  mkButton "Output" 22 17; mkButton "Off" 23 16; mkButton "Undo" 14 9;
  mkButton "Loop" 15 8; mkButton "User" 0 7; mkButton "Punch" 1 6;
  mkButton "Shift" 2 5; mkButton "Mix" 11 12; mkButton "Read" 10 13
].

Definition chase_lights : list Z := [20; 19; 18; 17; 16; 9; 8; 7; 6; 5; 12; 13].

(** The items an iterator cycles over. *)
Definition cycle_items {A} (it : cycle_iter A) : list A :=
  cycle_first it :: cycle_rest it.

(** A cycling iterator over [chase_seq] that has given out [t] items. *)
Definition chase_iter (t : nat) : cycle_iter Button :=
  mk_cycle (mkButton "Chan Down" 19 20) (tail chase_seq) t.

(** The object after the callback has handled one message. *)
Definition handled `{Hooks App} (m : Message) (s : FaderPort App) : FaderPort App :=
  after (_message_callback m) s.

(** * Properties *)

(** ** Case mapping *)

Ltac each_ascii a := destruct a as [[] [] [] [] [] [] [] []]; reflexivity.

Lemma ascii_upper_lower a : ascii_upper (ascii_lower a) = ascii_upper a.
Proof. each_ascii a. Qed.

Lemma ascii_lower_lower a : ascii_lower (ascii_lower a) = ascii_lower a.
Proof. each_ascii a. Qed.

Lemma is_cased_lower a : is_cased (ascii_lower a) = is_cased a.
Proof. each_ascii a. Qed.


Lemma title_from_lower p s : title_from p (str_lower s) = title_from p s.
Proof.
  revert p. induction s as [|a s IH]; intros p; simpl; [done|].
  rewrite is_cased_lower, IH.
  by destruct p; rewrite ?ascii_lower_lower, ?ascii_upper_lower.
Qed.

(** Two spellings of a name that differ only in the case of their
    letters have the same title-cased form, and the same upper-cased
    form. *)
Lemma str_title_casefold s s' : str_lower s = str_lower s' -> str_title s = str_title s'.
Proof.
  intros E. unfold str_title.
  by rewrite <- (title_from_lower false s), E, title_from_lower.
Qed.


(** ** The registry *)

Lemma BUTTONS_length : length BUTTONS = 24%nat.
Proof. reflexivity. Qed.

Lemma Rec_is_registered : dict_of name BUTTONS !! "Rec" = Some (mkButton "Rec" 16 23).
Proof. by vm_compute. Qed.

(** A key is missing from a comprehension's dict exactly when no entry
    of the list has it. *)
Lemma foldl_insert_None `{Countable K} {V A : Type} (kv : A -> K * V)
    (l : list A) (m0 : gmap K V) (k : K) :
  foldl (fun m x => <[(kv x).1 := (kv x).2]> m) m0 l !! k = None <->
  m0 !! k = None /\ k ∉ map (fun x => (kv x).1) l.
Proof.
  revert m0. induction l as [|x l IH]; intros m0; simpl.
  - split; [intros E; split; [done|apply not_elem_of_nil] | by intros [E _]].
  - rewrite IH, lookup_insert_None, not_elem_of_cons. intuition congruence.
Qed.

Lemma dict_of_None `{Countable K} {V : Type} (key : V -> K) (l : list V) (k : K) :
  dict_of key l !! k = None <-> k ∉ map key l.
Proof.
  unfold dict_of.
  rewrite (foldl_insert_None (fun x => (key x, x)) l ∅ k), lookup_empty. tauto.
Qed.


(** The keys of the name table are the 24 button names and the alias. *)
Lemma _button_from_name_None (k : string) :
  _button_from_name !! k = None <-> k ∉ "Rec Arm" :: map name BUTTONS.
Proof.
  unfold _button_from_name. rewrite Rec_is_registered.
  rewrite lookup_insert_None, dict_of_None, not_elem_of_cons. intuition congruence.
Qed.

Lemma button_names_title_cased : Forall (fun b => str_title (name b) = name b) BUTTONS.
Proof. repeat constructor. Qed.

(** Press codes and light codes are each unique across the buttons. *)
Lemma press_codes_unique : NoDup (map press BUTTONS).
Proof. apply (bool_decide_unpack _). by vm_compute. Qed.

Lemma light_codes_unique : NoDup (map light BUTTONS).
Proof. apply (bool_decide_unpack _). by vm_compute. Qed.

(** Whatever name lookup returns is found again under its press code:
    this covers the alias and every casing of a name. *)
Lemma button_from_name_press n b :
  button_from_name n = Ok b -> button_from_press (press b) = Some b.
Proof.
  unfold button_from_name, dict_getitem.
  destruct (_button_from_name !! str_title n) as [b'|] eqn:E; [|done].
  intros [= ->]. revert E. generalize (str_title n). intros k E.
  assert (H : map_Forall (fun _ b => button_from_press (press b) = Some b) _button_from_name).
  { apply (bool_decide_unpack _). by vm_compute. }
  exact (H k b E).
Qed.

(** C7. Registry round trip: [BUTTONS] defines 24 buttons, and for each
    of them looking the button up by its name succeeds, and looking up
    the press code of the button found returns that same button, which
    is the button itself:
    [button_from_press(button_from_name(name).press) == button_from_name(name)]. *)
Theorem registry_round_trip :
  length BUTTONS = 24%nat /\
  Forall (fun b => exists b',
            button_from_name (name b) = Ok b' /\
            button_from_press (press b') = Some b' /\
            b' = b) BUTTONS.
Proof.
  split; [reflexivity|].
  unfold BUTTONS.
  repeat (apply Forall_cons; split;
          [eexists; split; [by vm_compute | split; by vm_compute] |]).
  apply Forall_nil_2.
Qed.

Lemma is_ascii_char_lower a : is_ascii_char (ascii_lower a) = is_ascii_char a.
Proof. each_ascii a. Qed.

(** Lower-casing neither adds nor removes a character outside ASCII. *)
Lemma str_is_ascii_lower s : str_is_ascii (str_lower s) = str_is_ascii s.
Proof.
  induction s as [|a s IH]; simpl; [done|]. by rewrite is_ascii_char_lower, IH.
Qed.

(** C8. Name lookup, on names written in ASCII, ignores the case of
    the letters of its argument (the argument is put in title case before
    the table is read): two ASCII names that differ only in case give the
    same result.  It knows the alias: every casing of "Rec Arm" and every
    casing of "Rec" (ASCII strings, all of them) return the same button,
    the one named "Rec".  The table read with a canonical name that is
    neither a button name nor the alias raises [KeyError], and returns a
    button otherwise; so for an ASCII argument the lookup raises
    [KeyError] exactly when its title-cased form is neither a button name
    nor the alias. *)
Theorem button_from_name_case_alias_notfound :
  (forall n n',
     str_is_ascii n = true -> str_is_ascii n' = true ->
     str_lower n = str_lower n' ->
     button_from_name n = button_from_name n') /\
  (forall n1 n2, str_lower n1 = "rec arm" -> str_lower n2 = "rec" ->
     str_is_ascii n1 = true /\ str_is_ascii n2 = true /\
     button_from_name n1 = button_from_name n2 /\
     button_from_name n2 = Ok (mkButton "Rec" 16 23)) /\
  (forall k : string, k ∉ "Rec Arm" :: map name BUTTONS ->
     dict_getitem _button_from_name k = Raise (KeyError k)) /\
  (forall k : string, k ∈ "Rec Arm" :: map name BUTTONS ->
     exists b, dict_getitem _button_from_name k = Ok b) /\
  (forall n, str_is_ascii n = true ->
     str_title n ∉ "Rec Arm" :: map name BUTTONS ->
     button_from_name n = Raise (KeyError (str_title n))) /\
  (forall n, str_is_ascii n = true ->
     str_title n ∈ "Rec Arm" :: map name BUTTONS ->
     exists b, button_from_name n = Ok b).
Proof.
  assert (Hmiss : forall k : string, k ∉ "Rec Arm" :: map name BUTTONS ->
            dict_getitem _button_from_name k = Raise (KeyError k)).
  { intros k Hk. unfold dict_getitem. by rewrite (proj2 (_button_from_name_None _) Hk). }
  assert (Hfound : forall k : string, k ∈ "Rec Arm" :: map name BUTTONS ->
            exists b, dict_getitem _button_from_name k = Ok b).
  { intros k Hk. unfold dict_getitem.
    destruct (_button_from_name !! k) as [b|] eqn:E; [by exists b|].
    by apply _button_from_name_None in E. }
  split; [|split; [|split; [|split; [|split]]]].
  - intros n n' _ _ E. unfold button_from_name. by rewrite (str_title_casefold n n' E).
  - intros n1 n2 E1 E2.
    split; [by rewrite <- str_is_ascii_lower, E1|].
    split; [by rewrite <- str_is_ascii_lower, E2|].
    unfold button_from_name.
    rewrite (str_title_casefold n1 "rec arm" E1), (str_title_casefold n2 "rec" E2).
    split; by vm_compute.
  - exact Hmiss.
  - exact Hfound.
  - intros n _ Hn. by apply Hmiss.
  - intros n _ Hn. by apply Hfound.
Qed.

Lemma button_from_name_case_alias_notfound_witness :
  button_from_name "REC ARM" = button_from_name "rEc" /\
  button_from_name "chan DOWN" = button_from_name "Chan Down" /\
  button_from_name "pan" = Raise (KeyError "Pan") /\
  (exists b, button_from_name "fast fwd" = Ok b).
Proof.
  destruct button_from_name_case_alias_notfound
    as (Hcase & Halias & _ & _ & Hmiss & Hfound).
  split; [|split; [|split]].
  - apply (Halias "REC ARM" "rEc"); reflexivity.
  - apply (Hcase "chan DOWN" "Chan Down"); reflexivity.
  - apply (Hmiss "pan"); [reflexivity|].
    apply (bool_decide_unpack _). vm_compute. exact I.
  - apply (Hfound "fast fwd"); [reflexivity|].
    apply (bool_decide_unpack _). vm_compute. exact I.
Defined.

(** ** The message callback, whatever the subclass *)

Section AnySubclass.
Context {App : Type} `{Hooks App}.

(** Field A: the value is stored, and that is all; no hook runs. *)
Lemma callback_control_0 (s : FaderPort App) (v : Z) :
  _message_callback (control_change 0 v) s = (Ok (), with_msb v s).
Proof. reflexivity. Qed.

(** Field B: the combined position is cached, then [on_fader] runs
    once, on the updated object. *)
Lemma callback_control_32 (s : FaderPort App) (v : Z) :
  _message_callback (control_change 32 v) s =
  on_fader (Z.lor (_msb s ≪ 7) v ≫ 4) (with_fader (Z.lor (_msb s ≪ 7) v ≫ 4) s).
Proof. reflexivity. Qed.

Lemma callback_button (s : FaderPort App) (note value : Z) (b : Button) :
  button_from_press note = Some b ->
  _message_callback (polytouch note value) s = on_button b (negb (value =? 0)) s.
Proof. intros E. unfold _message_callback. by rewrite E. Qed.

Lemma callback_fader_touch (s : FaderPort App) (value : Z) :
  _message_callback (polytouch 127 value) s = on_fader_touch (negb (value =? 0)) s.
Proof.
  unfold _message_callback.
  assert (button_from_press 127 = None) as -> by by vm_compute.
  reflexivity.
Qed.

Lemma callback_pitchwheel (s : FaderPort App) (pitch : Z) :
  _message_callback (pitchwheel pitch) s = on_rotary (if pitch <? 0 then 1 else -1) s.
Proof. reflexivity. Qed.
End AnySubclass.

(** ** The message callback, with the recording hooks *)

Lemma receive_nil (s : Session) : receive [] s = (Ok (), s).
Proof. reflexivity. Qed.

Lemma receive_cons (m : Message) (ms : list Message) (s : Session) :
  receive (m :: ms) s =
  match _message_callback m s with
  | (Ok _, s') => receive ms s'
  | (Raise e, s') => (Raise e, s')
  end.
Proof. reflexivity. Qed.

Lemma for_each_cons {App A} (x : A) (l : list A) (body : A -> M App unit)
    (s : FaderPort App) :
  for_each (x :: l) body s =
  match body x s with
  | (Ok _, s') => for_each l body s'
  | (Raise e, s') => (Raise e, s')
  end.
Proof. reflexivity. Qed.

(** Field A: the value is stored, and that is all. *)
Lemma callback_field_A (s : Session) (v : Z) :
  _message_callback (control_change 0 v) s = (Ok (), with_msb v s).
Proof. reflexivity. Qed.

(** Field B: the position is combined from the stored half and the
    value, cached, and reported once. *)
Lemma callback_field_B (s : Session) (v : Z) :
  _message_callback (control_change 32 v) s =
  (Ok (), with_app (calls s ++ [call_on_fader (Z.lor (_msb s ≪ 7) v ≫ 4)])
            (with_fader (Z.lor (_msb s ≪ 7) v ≫ 4) s)).
Proof. reflexivity. Qed.

Lemma receive_field_A_then_B (s : Session) (a b : Z) :
  receive [control_change 0 a; control_change 32 b] s =
  (Ok (), with_app (calls s ++ [call_on_fader (Z.lor (a ≪ 7) b ≫ 4)])
            (with_fader (Z.lor (a ≪ 7) b ≫ 4) (with_msb a s))).
Proof. reflexivity. Qed.

Lemma button_from_press_127 : button_from_press 127 = None.
Proof. by vm_compute. Qed.

Lemma last_cons_default {A} (l : list A) (a d : A) :
  List.last (a :: l) d = List.last l a.
Proof.
  revert a d. induction l as [|x l IH]; intros a d; [reflexivity|].
  change (List.last (a :: x :: l) d) with (List.last (x :: l) d).
  by rewrite (IH x d), (IH x a).
Qed.

(** A run of field-B messages: every one of them is combined with the
    half that was pending when the run began. *)
Lemma receive_field_B_run (bs : list Z) (s : Session) :
  (receive (map (control_change 32) bs) s).1 = Ok () /\
  _msb (after (receive (map (control_change 32) bs)) s) = _msb s /\
  calls (after (receive (map (control_change 32) bs)) s) =
    calls s ++ map (fun b => call_on_fader (Z.lor (_msb s ≪ 7) b ≫ 4)) bs /\
  _fader (after (receive (map (control_change 32) bs)) s) =
    List.last (map (fun b => Z.lor (_msb s ≪ 7) b ≫ 4) bs) (_fader s) /\
  outport (after (receive (map (control_change 32) bs)) s) = outport s.
Proof.
  unfold after. revert s. induction bs as [|b bs IH]; intros s.
  - cbn [map]. rewrite receive_nil. cbn. by rewrite app_nil_r.
  - cbn [map]. rewrite receive_cons, callback_field_B.
    destruct (IH (with_app (calls s ++ [call_on_fader (Z.lor (_msb s ≪ 7) b ≫ 4)])
                    (with_fader (Z.lor (_msb s ≪ 7) b ≫ 4) s)))
      as (H1 & H2 & H3 & H4 & H5).
    repeat split.
    + exact H1.
    + rewrite H2. reflexivity.
    + rewrite H3. unfold calls. cbn. by rewrite <- app_assoc.
    + rewrite H4. cbn [map]. rewrite last_cons_default. reflexivity.
    + rewrite H5. reflexivity.
Qed.

(** C1, as stated, fails: in the end-to-end scenario no [on_fader] call
    carries 80, the cached position is not 80, and the combination
    [(10 << 7 | 64) >> 4] is not 80. *)
Lemma end_to_end_fader_is_not_80 :
  (call_on_fader 80 ∉ calls end_to_end_session) /\
  _fader end_to_end_session <> 80 /\
  Z.lor (10 ≪ 7) 64 ≫ 4 <> 80.
Proof.
  change ((call_on_fader 80 ∉ [call_on_open; call_on_fader 84]) /\ 84 <> 80 /\ 84 <> 80).
  split; [|split; lia].
  rewrite !not_elem_of_cons. repeat split; try discriminate. apply not_elem_of_nil.
Qed.

(** C1, amended. End-to-end fader decoding: when a session, open or
    not, receives a control-change message with control 0 and value [a]
    and then one with control 32 and value [b], neither raises, exactly
    one hook call is added to those already made, [on_fader] with the
    position [(a << 7 | b) >> 4], and that position becomes the cached
    fader position (with [a] the pending half).  For [a = 10] and
    [b = 64] the position is [(10 << 7 | 64) >> 4 = 84]. *)
Theorem end_to_end_fader_decoding :
  (forall (s : Session) (a b : Z),
     receive [control_change 0 a; control_change 32 b] s =
     (Ok (), with_app (calls s ++ [call_on_fader (Z.lor (a ≪ 7) b ≫ 4)])
               (with_fader (Z.lor (a ≪ 7) b ≫ 4) (with_msb a s)))) /\
  (forall s : Session,
     calls (after (receive [control_change 0 10; control_change 32 64]) s)
       = calls s ++ [call_on_fader 84] /\
     _fader (after (receive [control_change 0 10; control_change 32 64]) s) = 84 /\
     fader (after (receive [control_change 0 10; control_change 32 64]) s)
       = (Ok 84, after (receive [control_change 0 10; control_change 32 64]) s)) /\
  calls end_to_end_session = [call_on_open; call_on_fader 84] /\
  Z.lor (10 ≪ 7) 64 ≫ 4 = 84.
Proof.
  split; [exact receive_field_A_then_B|].
  split; [|split]; try reflexivity.
  intros s. repeat split.
Qed.

(** C3. Field A is silent and the pending half is sticky.  A
    control-change message with control 0 stores its value as the pending
    half and changes nothing else: the cached position, the log of hook
    calls, the output port and the diagnostics are as before.  A message
    with control 32 leaves the pending half as it is.  So after a field-A
    message with value [a], each message of a run of field-B messages is
    combined with that same [a]: the hook calls added are the [on_fader]
    calls with [(a << 7 | b) >> 4], one per [b] of the run and in its
    order, and [a] is still pending at the end.  The first part does not
    depend on the hooks: whatever subclass supplies them, the result of a
    field-A message is the object with the pending half replaced. *)
Theorem field_A_silent_msb_sticky :
  (forall (App : Type) (hooks : Hooks App) (s : FaderPort App) (v : Z),
     _message_callback (control_change 0 v) s = (Ok (), with_msb v s)) /\
  (forall (s : Session) (v : Z),
     _message_callback (control_change 0 v) s = (Ok (), with_msb v s) /\
     _msb (with_msb v s) = v /\
     _fader (with_msb v s) = _fader s /\
     calls (with_msb v s) = calls s /\
     outport (with_msb v s) = outport s /\
     stdout (with_msb v s) = stdout s) /\
  (forall (s : Session) (v : Z),
     _msb (after (_message_callback (control_change 32 v)) s) = _msb s) /\
  (forall (s : Session) (a : Z) (bs : list Z),
     (receive (control_change 0 a :: map (control_change 32) bs) s).1 = Ok () /\
     calls (after (receive (control_change 0 a :: map (control_change 32) bs)) s) =
       calls s ++ map (fun b => call_on_fader (Z.lor (a ≪ 7) b ≫ 4)) bs /\
     _msb (after (receive (control_change 0 a :: map (control_change 32) bs)) s) = a).
Proof.
  split; [|split; [|split]].
  - intros App hooks s v. reflexivity.
  - intros s v. repeat split.
  - intros s v. reflexivity.
  - intros s a bs. unfold after.
    rewrite receive_cons, callback_field_A.
    destruct (receive_field_B_run bs (with_msb a s)) as (H1 & H2 & H3 & _).
    unfold after in H2, H3. by rewrite H1, H2, H3.
Qed.

(** C5. The fader-touch sentinel is not a button.  No button of the
    registry has press code 127, so [button_from_press 127] returns
    [None], without raising; and on a polytouch message with note 127 the
    callback makes exactly one hook call, [on_fader_touch] with
    [value != 0], and no [on_button] call. *)
Theorem fader_touch_sentinel_precedence :
  button_from_press 127 = None /\
  Forall (fun b => press b <> 127) BUTTONS /\
  (forall (s : Session) (value : Z),
     _message_callback (polytouch 127 value) s =
     (Ok (), with_app (calls s ++ [call_on_fader_touch (negb (value =? 0))]) s)) /\
  (forall (s : Session),
     calls (after (_message_callback (polytouch 127 0)) s)
       = calls s ++ [call_on_fader_touch false] /\
     calls (after (_message_callback (polytouch 127 1)) s)
       = calls s ++ [call_on_fader_touch true]).
Proof.
  split; [exact button_from_press_127|]. split; [|split].
  - unfold BUTTONS. repeat (apply Forall_cons; split; [discriminate|]). apply Forall_nil_2.
  - intros s value. unfold _message_callback. by rewrite button_from_press_127.
  - intros s. unfold after, _message_callback. by rewrite button_from_press_127.
Qed.

(** C6. The rotary sign is inverted.  On a pitchwheel message the
    callback makes exactly one hook call, [on_rotary], with direction 1
    when the pitch is negative and -1 when it is zero or positive: pitch
    -5 gives 1, pitch 5 gives -1 and pitch 0 gives -1. *)
Theorem rotary_sign_inversion :
  (forall (s : Session) (pitch : Z), exists direction : Z,
     _message_callback (pitchwheel pitch) s =
       (Ok (), with_app (calls s ++ [call_on_rotary direction]) s) /\
     (pitch < 0 /\ direction = 1 \/ 0 <= pitch /\ direction = -1)) /\
  (forall s : Session,
     calls (after (_message_callback (pitchwheel (-5))) s) = calls s ++ [call_on_rotary 1] /\
     calls (after (_message_callback (pitchwheel 5)) s) = calls s ++ [call_on_rotary (-1)] /\
     calls (after (_message_callback (pitchwheel 0)) s) = calls s ++ [call_on_rotary (-1)]).
Proof.
  split.
  - intros s pitch. exists (if pitch <? 0 then 1 else -1).
    split; [reflexivity|]. destruct (Z.ltb_spec pitch 0); [left|right]; by split.
  - intros s. repeat split.
Qed.

(** ** The fader codec *)

(** Splitting an integer at bit 7 and putting the halves together again
    gives the integer back. *)
Lemma split_at_bit_7 (V : Z) : Z.lor ((V ≫ 7) ≪ 7) (Z.land V 127) = V.
Proof.
  apply Z.bits_inj'. intros n Hn.
  rewrite Z.lor_spec, Z.land_spec.
  change 127 with (Z.ones 7).
  destruct (Z.lt_ge_cases n 7) as [Hlt|Hge].
  - rewrite Z.shiftl_spec_low by lia.
    rewrite Z.ones_spec_low by lia.
    by rewrite andb_true_r.
  - rewrite Z.shiftl_spec by lia.
    rewrite Z.shiftr_spec by lia.
    rewrite Z.ones_spec_high by lia.
    rewrite andb_false_r, orb_false_r.
    f_equal. lia.
Qed.

Lemma data_byte_high (c : Z) : 0 <= c <= 1023 -> 0 <= c ≫ 7 <= 127.
Proof.
  intros Hc. rewrite Z.shiftr_div_pow2 by lia. change (2 ^ 7) with 128.
  split; [apply Z.div_pos; lia|].
  assert (c `div` 128 < 8) by (apply Z.div_lt_upper_bound; lia). lia.
Qed.

Lemma data_byte_low (c : Z) : 0 <= Z.land c 127 <= 127.
Proof.
  assert (E : Z.land c 127 = c `mod` 128).
  { change 127 with (Z.ones 7). by rewrite Z.land_ones by lia. }
  rewrite E. pose proof (Z.mod_pos_bound c 128). lia.
Qed.

(** What the setter does on an open session, with the position it
    caches written as the source writes it. *)
Lemma fader_set_open {App : Type} (s : FaderPort App) (sent : list Message) (value : Z) :
  outport s = Some sent ->
  fader_set value s =
    (Ok (), with_outport
              (Some (sent ++ [control_change 0
                                ((if (0 <? value) && (value <? 1024) then value else 0) ≫ 7);
                              control_change 32
                                (Z.land (if (0 <? value) && (value <? 1024) then value else 0) 127)]))
              (with_fader (if (0 <? value) && (value <? 1024) then value else 0) s)).
Proof.
  intros Hopen. destruct s as [o f m st a]. simpl in Hopen. subst o.
  cbv [fader_set mbind M_bind set__fader get__fader outport_send with_fader with_outport
       outport _fader _msb stdout app].
  by rewrite <- app_assoc.
Qed.

(** C4. The fader setter.  On an open session, setting the fader to
    [value] caches [value] itself when [0 < value < 1024] and caches 0
    for every other value (so for 0, for 1024 and for a negative value);
    in both cases it then sends two messages, in this order: control 0
    with the cached position shifted right by 7, control 32 with the low
    7 bits of the cached position.  Nothing else of the session changes,
    both data bytes lie in 0..127, and the getter afterwards returns the
    cached position. *)
Theorem fader_setter_contract {App : Type} (s : FaderPort App)
    (sent : list Message) (value : Z) :
  outport s = Some sent ->
  exists cached : Z,
    (0 < value < 1024 -> cached = value) /\
    (value <= 0 \/ 1024 <= value -> cached = 0) /\
    fader_set value s =
      (Ok (), with_outport
                (Some (sent ++ [control_change 0 (cached ≫ 7);
                                control_change 32 (Z.land cached 127)]))
                (with_fader cached s)) /\
    fader (after (fader_set value) s) = (Ok cached, after (fader_set value) s) /\
    0 <= cached ≫ 7 <= 127 /\
    0 <= Z.land cached 127 <= 127.
Proof.
  intros Hopen.
  exists (if (0 <? value) && (value <? 1024) then value else 0).
  unfold after. rewrite (fader_set_open s sent value Hopen).
  set (cached := if (0 <? value) && (value <? 1024) then value else 0).
  assert (Hin : 0 < value < 1024 -> cached = value).
  { intros [? ?]. unfold cached.
    by rewrite (proj2 (Z.ltb_lt 0 value)), (proj2 (Z.ltb_lt value 1024)). }
  assert (Hout : value <= 0 \/ 1024 <= value -> cached = 0).
  { intros [?|?]; unfold cached.
    - by rewrite (proj2 (Z.ltb_ge 0 value)).
    - rewrite (proj2 (Z.ltb_ge value 1024)) by done. by rewrite andb_false_r. }
  assert (Hrange : 0 <= cached <= 1023).
  { destruct (Z.lt_ge_cases 0 value), (Z.lt_ge_cases value 1024);
      [rewrite Hin by lia | rewrite Hout by lia ..]; lia. }
  split; [exact Hin|]. split; [exact Hout|]. split; [reflexivity|].
  split; [reflexivity|]. split; [by apply data_byte_high | apply data_byte_low].
Qed.

Lemma fader_setter_contract_witness :
  exists cached : Z,
    (0 < 1024 < 1024 -> cached = 1024) /\
    (1024 <= 0 \/ 1024 <= 1024 -> cached = 0) /\
    fader_set 1024 (mkFaderPort (Some [polytouch 21 1]) 512 4 [] ()) =
      (Ok (), with_outport
                (Some ([polytouch 21 1] ++ [control_change 0 (cached ≫ 7);
                                            control_change 32 (Z.land cached 127)]))
                (with_fader cached (mkFaderPort (Some [polytouch 21 1]) 512 4 [] ()))) /\
    fader (after (fader_set 1024) (mkFaderPort (Some [polytouch 21 1]) 512 4 [] ()))
      = (Ok cached, after (fader_set 1024) (mkFaderPort (Some [polytouch 21 1]) 512 4 [] ())) /\
    0 <= cached ≫ 7 <= 127 /\
    0 <= Z.land cached 127 <= 127.
Proof.
  apply (fader_setter_contract (mkFaderPort (Some [polytouch 21 1]) 512 4 [] ())
           [polytouch 21 1] 1024).
  reflexivity.
Defined.

(** C2, as stated, fails: at the boundary value 127 the two fields are 0
    and 127, they decode to 7, and [(127 >> 4) << 4] is 112. *)
Lemma fader_round_trip_is_not_masking :
  encode 127 = [control_change 0 0; control_change 32 127] /\
  decode (encode 127) = 7 /\
  (127 ≫ 4) ≪ 4 = 112 /\
  decode (encode 127) <> (127 ≫ 4) ≪ 4.
Proof. repeat split. discriminate. Qed.

(** C2, amended.  Fader round trip: for every [V] in 0..1023 the setter
    encodes [V] as field A = [V >> 7] and field B = [V & 0x7F], and
    decoding these two fields with the callback's combination yields
    [V >> 4], on any session: one [on_fader] call with [V >> 4], which
    also becomes the cached position.  At the boundary values 0, 1, 127,
    128 and 1023 the round trip gives 0, 0, 7, 8 and 63. *)
Theorem fader_round_trip :
  (forall V : Z, 0 <= V <= 1023 ->
     encode V = [control_change 0 (V ≫ 7); control_change 32 (Z.land V 127)] /\
     decode (encode V) = V ≫ 4 /\
     (forall s : Session,
        _fader (after (receive (encode V)) s) = V ≫ 4 /\
        calls (after (receive (encode V)) s) = calls s ++ [call_on_fader (V ≫ 4)])) /\
  decode (encode 0) = 0 /\
  decode (encode 1) = 0 /\
  decode (encode 127) = 7 /\
  decode (encode 128) = 8 /\
  decode (encode 1023) = 63.
Proof.
  split; [|repeat split].
  intros V HV.
  assert (Henc : encode V = [control_change 0 (V ≫ 7); control_change 32 (Z.land V 127)]).
  { unfold encode, after.
    rewrite (fader_set_open (with_outport (Some []) (__init__ ())) [] V eq_refl).
    destruct (Z.eq_dec V 0) as [->|]; [reflexivity|].
    by rewrite (proj2 (Z.ltb_lt 0 V)), (proj2 (Z.ltb_lt V 1024)) by lia. }
  assert (Hdec : forall s : Session,
            after (receive (encode V)) s =
            with_app (calls s ++ [call_on_fader (V ≫ 4)])
              (with_fader (V ≫ 4) (with_msb (V ≫ 7) s))).
  { intros s. rewrite Henc. unfold after.
    rewrite receive_field_A_then_B. simpl.
    by rewrite split_at_bit_7. }
  split; [exact Henc|]. split.
  - unfold decode. by rewrite Hdec.
  - intros s. by rewrite Hdec.
Qed.

Lemma fader_round_trip_witness :
  encode 1023 = [control_change 0 (1023 ≫ 7); control_change 32 (Z.land 1023 127)] /\
  decode (encode 1023) = 1023 ≫ 4.
Proof.
  destruct fader_round_trip as (Hall & _).
  destruct (Hall 1023) as (Henc & Hdec & _); [lia|].
  split; [exact Henc | exact Hdec].
Defined.

(** ** The character matrix *)


Lemma glyphs_in_bounds :
  map_Forall (fun _ glyph => Forall (fun i => 0 <= i < 24) glyph) CHARACTERS.
Proof. apply (bool_decide_unpack _). by vm_compute. Qed.

(** An index within the bounds of a list selects an element. *)
Lemma list_getitem_in_range {A} (l : list A) (i : Z) :
  0 <= i < Z.of_nat (length l) -> exists x, list_getitem l i = Ok x.
Proof.
  intros Hi. unfold list_getitem.
  rewrite (proj2 (Z.ltb_ge i 0)) by lia.
  rewrite (proj2 (Z.leb_le 0 i)), (proj2 (Z.ltb_lt i _)) by lia. simpl.
  destruct (lookup_lt_is_Some_2 l (Z.to_nat i)) as [x Hx]; [lia|].
  rewrite Hx. by exists x.
Qed.

Lemma glyph_buttons (glyph : list Z) :
  Forall (fun i => 0 <= i < 24) glyph ->
  exists bs, Forall2 (fun i b => list_getitem BUTTONS i = Ok b) glyph bs.
Proof.
  induction 1 as [|i glyph Hi _ [bs IH]]; [by exists []|].
  destruct (list_getitem_in_range BUTTONS i) as [b Hb]; [by rewrite BUTTONS_length|].
  exists (b :: bs). by constructor.
Qed.

Section Lighting.
Context {App : Type}.

Lemma light_on_open (b : Button) (s : FaderPort App) (sent : list Message) :
  outport s = Some sent ->
  light_on b s = (Ok (), with_outport (Some (sent ++ [polytouch (light b) 1])) s).
Proof. intros Hopen. unfold light_on, outport_send. by rewrite Hopen. Qed.

Lemma light_at_index (i : Z) (b : Button) (s : FaderPort App) :
  list_getitem BUTTONS i = Ok b ->
  (button ← lift_result (list_getitem BUTTONS i); light_on button) s = light_on b s.
Proof. intros Hb. unfold mbind, M_bind, lift_result. by rewrite Hb. Qed.

(** Lighting the buttons at the indices of a glyph, on an open
    session: one light-on message per index, in order. *)
Lemma light_glyph_open (glyph : list Z) (bs : list Button) :
  Forall2 (fun i b => list_getitem BUTTONS i = Ok b) glyph bs ->
  forall (s : FaderPort App) (sent : list Message),
    outport s = Some sent ->
    for_each glyph (fun i => button ← lift_result (list_getitem BUTTONS i); light_on button) s =
    (Ok (), with_outport (Some (sent ++ map (fun b => polytouch (light b) 1) bs)) s).
Proof.
  induction 1 as [|i b glyph bs Hb _ IH]; intros s sent Hopen.
  - cbn. rewrite app_nil_r, <- Hopen. by destruct s.
  - rewrite for_each_cons, (light_at_index i b s Hb), (light_on_open b s sent Hopen).
    rewrite (IH (with_outport (Some (sent ++ [polytouch (light b) 1])) s)
                (sent ++ [polytouch (light b) 1]) eq_refl).
    cbn [map]. by rewrite <- app_assoc.
Qed.

(** The same on a session without output port: the first send raises. *)
Lemma light_glyph_closed (glyph : list Z) (bs : list Button) (s : FaderPort App) :
  Forall2 (fun i b => list_getitem BUTTONS i = Ok b) glyph bs ->
  outport s = None ->
  for_each glyph (fun i => button ← lift_result (list_getitem BUTTONS i); light_on button) s =
  (if glyph is [] then Ok () else Raise AttributeError, s).
Proof.
  intros [|i b glyph' bs' Hb _] Hclosed; [reflexivity|].
  rewrite for_each_cons, (light_at_index i b s Hb).
  unfold light_on, outport_send. by rewrite Hclosed.
Qed.

Lemma char_on_supported (c : string) (glyph : list Z) (s : FaderPort App) :
  CHARACTERS !! str_upper c = Some glyph ->
  char_on c s =
  for_each glyph (fun i => button ← lift_result (list_getitem BUTTONS i); light_on button) s.
Proof.
  intros E. unfold char_on, dict_contains, dict_getitem. by rewrite E.
Qed.

Lemma char_on_unsupported (c : string) (s : FaderPort App) :
  CHARACTERS !! str_upper c = None -> char_on c s = (Ok (), s).
Proof. intros E. unfold char_on, dict_contains. by rewrite E. Qed.
End Lighting.





(** C10. Glyph indexing stays in bounds.  [BUTTONS] has 24 entries and
    every index of every glyph of [CHARACTERS] lies in 0..23, so the
    subscript [BUTTONS[i]] in [char_on] always finds a button: on an open
    session [char_on] returns normally for every string, of one character
    or of any other length, and on no session and for no string does it
    raise [IndexError]. *)
Theorem glyph_indexing_in_bounds {App : Type} :
  length BUTTONS = 24%nat /\
  (forall (k : string) (glyph : list Z),
     CHARACTERS !! k = Some glyph -> Forall (fun i => 0 <= i < 24) glyph) /\
  (forall (c : string) (s : FaderPort App),
     is_open s -> (char_on c s).1 = Ok ()) /\
  (forall (c : string) (s : FaderPort App),
     (char_on c s).1 <> Raise IndexError).
Proof.
  assert (Hopen : forall (c : string) (s : FaderPort App),
            is_open s -> (char_on c s).1 = Ok ()).
  { intros c s [sent Hs].
    destruct (CHARACTERS !! str_upper c) as [glyph|] eqn:E.
    - destruct (glyph_buttons glyph (glyphs_in_bounds _ _ E)) as [bs Hbs].
      by rewrite (char_on_supported c glyph s E), (light_glyph_open glyph bs Hbs s sent Hs).
    - by rewrite (char_on_unsupported c s E). }
  split; [reflexivity|]. split; [exact glyphs_in_bounds|]. split; [exact Hopen|].
  intros c s.
  destruct (outport s) as [sent|] eqn:Hs.
  - rewrite Hopen; [discriminate | by exists sent].
  - destruct (CHARACTERS !! str_upper c) as [glyph|] eqn:E.
    + destruct (glyph_buttons glyph (glyphs_in_bounds _ _ E)) as [bs Hbs].
      rewrite (char_on_supported c glyph s E), (light_glyph_closed glyph bs s Hbs Hs).
      by destruct glyph.
    + by rewrite (char_on_unsupported c s E).
Qed.

Lemma glyph_indexing_in_bounds_witness :
  Forall (fun i => 0 <= i < 24) [3; 4; 5; 6; 10; 12; 16; 23] /\
  (char_on "7" (after open (__init__ ([] : list HookCall)))).1 = Ok ().
Proof.
  destruct (@glyph_indexing_in_bounds (list HookCall)) as (_ & Hglyph & Hopen & _).
  split.
  - apply (Hglyph "7"). vm_compute. reflexivity.
  - apply (Hopen "7"). exists []. reflexivity.
Defined.

(** * Further properties of the module *)

(** ** The fader, beyond the scenarios *)

Lemma cached_position_range (value : Z) :
  0 <= (if (0 <? value) && (value <? 1024) then value else 0) <= 1023.
Proof.
  destruct (Z.ltb_spec 0 value), (Z.ltb_spec value 1024); simpl; lia.
Qed.

Lemma fader_set_unopened {App : Type} (s : FaderPort App) (value : Z) :
  outport s = None ->
  fader_set value s =
    (Raise AttributeError,
     with_fader (if (0 <? value) && (value <? 1024) then value else 0) s).
Proof.
  intros Hclosed. destruct s as [o f m st a]. simpl in Hclosed. subst o.
  reflexivity.
Qed.

(** X1. Whatever value the fader is set to, and whether the session is
    open or not, the position cached afterwards lies in 0..1023. *)
Theorem fader_set_keeps_range {App : Type} (s : FaderPort App) (value : Z) :
  0 <= _fader (after (fader_set value) s) <= 1023.
Proof.
  unfold after. destruct (outport s) as [sent|] eqn:Hs.
  - rewrite (fader_set_open s sent value Hs). apply cached_position_range.
  - rewrite (fader_set_unopened s value Hs). apply cached_position_range.
Qed.

(** X2. On a session that was never opened the fader setter raises
    [AttributeError] at its first send, and by then it has already
    replaced the cached position: by the value when it is strictly
    between 0 and 1024, by 0 otherwise.  Nothing else of the object
    changes, and the getter returns the new position. *)
Theorem fader_set_unopened_caches_first {App : Type} (s : FaderPort App) (value : Z) :
  outport s = None ->
  exists cached : Z,
    (0 < value < 1024 -> cached = value) /\
    (value <= 0 \/ 1024 <= value -> cached = 0) /\
    fader_set value s = (Raise AttributeError, with_fader cached s) /\
    fader (with_fader cached s) = (Ok cached, with_fader cached s).
Proof.
  intros Hclosed.
  exists (if (0 <? value) && (value <? 1024) then value else 0).
  split; [|split; [|split]].
  - intros [? ?].
    by rewrite (proj2 (Z.ltb_lt 0 value)), (proj2 (Z.ltb_lt value 1024)).
  - intros [?|?].
    + by rewrite (proj2 (Z.ltb_ge 0 value)).
    + rewrite (proj2 (Z.ltb_ge value 1024)) by done. by rewrite andb_false_r.
  - by apply fader_set_unopened.
  - reflexivity.
Qed.

Lemma fader_set_unopened_caches_first_witness :
  exists cached : Z,
    (0 < 300 < 1024 -> cached = 300) /\
    (300 <= 0 \/ 1024 <= 300 -> cached = 0) /\
    fader_set 300 (__init__ ()) = (Raise AttributeError, with_fader cached (__init__ ())) /\
    fader (with_fader cached (__init__ ())) = (Ok cached, with_fader cached (__init__ ())).
Proof.
  apply (fader_set_unopened_caches_first (__init__ ()) 300). reflexivity.
Defined.

(** Or-ing a shifted number with a number that fits below the shift is
    adding them. *)
Lemma lor_shiftl_small (a c k : Z) :
  0 <= k -> 0 <= c < 2 ^ k -> Z.lor (a ≪ k) c = a * 2 ^ k + c.
Proof.
  intros Hk Hc.
  assert (Hland : Z.land (a ≪ k) c = 0).
  { apply Z.bits_inj'. intros n Hn. rewrite Z.land_spec, Z.bits_0.
    destruct (Z.lt_ge_cases n k) as [Hlt|Hge].
    - by rewrite Z.shiftl_spec_low.
    - assert (Z.testbit c n = false) as ->; [|by rewrite andb_false_r].
      apply Z.testbit_false; [done|].
      rewrite Z.div_small; [done|].
      split; [lia|]. apply Z.lt_le_trans with (2 ^ k); [lia|].
      apply Z.pow_le_mono_r; lia. }
  pose proof (Z.add_lor_land (a ≪ k) c) as Hadd.
  rewrite Hland, Z.add_0_r, Z.shiftl_mul_pow2 in Hadd by done.
  by rewrite Z.shiftl_mul_pow2.
Qed.

Lemma combine_closed_form (a b : Z) :
  0 <= b <= 127 -> Z.lor (a ≪ 7) b ≫ 4 = 8 * a + b `div` 16.
Proof.
  intros Hb. rewrite (lor_shiftl_small a b 7) by (change (2 ^ 7) with 128; lia).
  rewrite Z.shiftr_div_pow2 by lia.
  change (2 ^ 7) with 128. change (2 ^ 4) with 16.
  replace (a * 128 + b) with (8 * a * 16 + b) by lia.
  by rewrite Z.div_add_l.
Qed.

Lemma combine_range (a b : Z) :
  data_byte a -> data_byte b -> 0 <= Z.lor (a ≪ 7) b ≫ 4 <= 1023.
Proof.
  unfold data_byte. intros Ha Hb. rewrite combine_closed_form by done.
  assert (0 <= b `div` 16) by (apply Z.div_pos; lia).
  assert (b `div` 16 < 8) by (apply Z.div_lt_upper_bound; lia).
  lia.
Qed.

(** X3. What the callback's combination amounts to.  With a field-B
    value [b] in 0..127 and any pending half [a], the position reported
    and cached is [8 * a + b // 16]: the low 4 bits of field B do not
    count.  With [a] a data byte as well the position lies in 0..1023,
    and every position [p] of 0..1023 is the one decoded from the data
    bytes [p >> 3] and [(p & 7) << 4]. *)
Theorem callback_position_closed_form :
  (forall (s : Session) (a b : Z), 0 <= b <= 127 ->
     receive [control_change 0 a; control_change 32 b] s =
     (Ok (), with_app (calls s ++ [call_on_fader (8 * a + b `div` 16)])
               (with_fader (8 * a + b `div` 16) (with_msb a s)))) /\
  (forall a b : Z, data_byte a -> data_byte b -> 0 <= 8 * a + b `div` 16 <= 1023) /\
  (forall (s : Session) (p : Z), 0 <= p <= 1023 ->
     data_byte (p ≫ 3) /\ data_byte (Z.land p 7 ≪ 4) /\
     _fader (after (receive [control_change 0 (p ≫ 3);
                             control_change 32 (Z.land p 7 ≪ 4)]) s) = p).
Proof.
  split; [|split].
  - intros s a b Hb. rewrite receive_field_A_then_B. by rewrite combine_closed_form.
  - intros a b Ha Hb. rewrite <- combine_closed_form by done. by apply combine_range.
  - intros s p Hp.
    assert (Hlow : Z.land p 7 = p `mod` 8).
    { change 7 with (Z.ones 3). by rewrite Z.land_ones. }
    assert (Hhigh : p ≫ 3 = p `div` 8) by by rewrite Z.shiftr_div_pow2.
    pose proof (Z.mod_pos_bound p 8 eq_refl) as Hm.
    assert (Hd : 0 <= p `div` 8 < 128).
    { split; [apply Z.div_pos; lia | apply Z.div_lt_upper_bound; lia]. }
    assert (Hb : Z.land p 7 ≪ 4 = p `mod` 8 * 16).
    { by rewrite Hlow, Z.shiftl_mul_pow2. }
    unfold data_byte. rewrite Hhigh, Hb.
    split; [lia|]. split; [lia|].
    unfold after. rewrite receive_field_A_then_B. cbn.
    rewrite combine_closed_form by lia.
    rewrite Z.div_mul by done.
    pose proof (Z.div_mod p 8). lia.
Qed.

Lemma callback_position_closed_form_witness :
  receive [control_change 0 127; control_change 32 127] (__init__ []) =
    (Ok (), with_app (calls (__init__ []) ++ [call_on_fader (8 * 127 + 127 `div` 16)])
              (with_fader (8 * 127 + 127 `div` 16) (with_msb 127 (__init__ [])))) /\
  _fader (after (receive [control_change 0 (1000 ≫ 3);
                          control_change 32 (Z.land 1000 7 ≪ 4)]) (__init__ [])) = 1000.
Proof.
  destruct callback_position_closed_form as (Hform & _ & Honto).
  split.
  - apply (Hform (__init__ []) 127 127). lia.
  - apply (Honto (__init__ []) 1000). lia.
Defined.

(** ** The registry, beyond the scenarios *)

Lemma elem_of_range (n i : Z) : i ∈ range n <-> 0 <= i < n.
Proof.
  unfold range. rewrite list_elem_of_fmap. split.
  - intros (k & -> & Hk). apply elem_of_seq in Hk. lia.
  - intros Hi. exists (Z.to_nat i). split; [lia|]. apply elem_of_seq. lia.
Qed.

Lemma press_lookup_sound :
  map_Forall (fun k b => b ∈ BUTTONS /\ press b = k) _button_from_press.
Proof. apply (bool_decide_unpack _). by vm_compute. Qed.

Lemma press_lookup_complete :
  Forall (fun b => button_from_press (press b) = Some b) BUTTONS.
Proof. apply (bool_decide_unpack _). by vm_compute. Qed.

Lemma press_codes_are_0_to_23 :
  Forall (fun b => 0 <= press b <= 23) BUTTONS /\
  Forall (fun p => is_Some (button_from_press p)) (range 24).
Proof. split; apply (bool_decide_unpack _); by vm_compute. Qed.

(** X4. Lookup by press code returns exactly the registry entry with
    that press code: [button_from_press p] is a button [b] if and only if
    [b] is one of [BUTTONS] and its press code is [p]; and it finds a
    button if and only if [p] is one of 0..23. *)
Theorem button_from_press_exact :
  (forall (p : Z) (b : Button),
     button_from_press p = Some b <-> b ∈ BUTTONS /\ press b = p) /\
  (forall p : Z, is_Some (button_from_press p) <-> 0 <= p <= 23).
Proof.
  assert (Hexact : forall (p : Z) (b : Button),
            button_from_press p = Some b <-> b ∈ BUTTONS /\ press b = p).
  { intros p b. split.
    - apply press_lookup_sound.
    - intros [Hb <-]. revert b Hb. apply Forall_forall, press_lookup_complete. }
  split; [exact Hexact|].
  intros p. split.
  - intros [b Hb]. apply Hexact in Hb as [Hb <-]. revert b Hb.
    apply Forall_forall, press_codes_are_0_to_23.
  - intros Hp. assert (Hin : p ∈ range 24) by (apply elem_of_range; lia).
    clear Hp. revert p Hin. apply Forall_forall, press_codes_are_0_to_23.
Qed.

Lemma name_lookup_sound :
  map_Forall (fun k b => b ∈ BUTTONS /\
                         (name b = k \/ k = "Rec Arm" /\ name b = "Rec"))
             _button_from_name.
Proof. apply (bool_decide_unpack _). by vm_compute. Qed.

Lemma name_table_press :
  map_Forall (fun _ b => button_from_press (press b) = Some b) _button_from_name.
Proof. apply (bool_decide_unpack _). by vm_compute. Qed.

(** X5. What lookup by name can return.  A button read from the name
    table under a canonical name is one of [BUTTONS]; its name is that
    canonical name, unless that is the alias "Rec Arm", in which case it
    is the button named "Rec"; and lookup by its press code returns the
    same button.  So when [button_from_name] returns a button for an
    ASCII argument, the button is one of [BUTTONS], named as the
    title-cased argument (or "Rec" for the alias), and found again under
    its press code. *)
Theorem button_from_name_sound :
  (forall (k : string) (b : Button),
     dict_getitem _button_from_name k = Ok b ->
     b ∈ BUTTONS /\
     (name b = k \/ k = "Rec Arm" /\ name b = "Rec") /\
     button_from_press (press b) = Some b) /\
  (forall (n : string) (b : Button),
     str_is_ascii n = true ->
     button_from_name n = Ok b ->
     b ∈ BUTTONS /\
     (name b = str_title n \/ str_title n = "Rec Arm" /\ name b = "Rec") /\
     button_from_press (press b) = Some b).
Proof.
  assert (Htable : forall (k : string) (b : Button),
            dict_getitem _button_from_name k = Ok b ->
            b ∈ BUTTONS /\
            (name b = k \/ k = "Rec Arm" /\ name b = "Rec") /\
            button_from_press (press b) = Some b).
  { intros k b Hk. unfold dict_getitem in Hk.
    destruct (_button_from_name !! k) as [b'|] eqn:E; [|done].
    injection Hk as ->. destruct (name_lookup_sound _ _ E) as [Hmem Hname].
    split; [exact Hmem|]. split; [exact Hname|]. exact (name_table_press _ _ E). }
  split; [exact Htable|].
  intros n b _ Hn. by apply Htable.
Qed.

Lemma button_from_name_sound_witness :
  mkButton "Rec" 16 23 ∈ BUTTONS /\
  (name (mkButton "Rec" 16 23) = str_title "rec arm" \/
   str_title "rec arm" = "Rec Arm" /\ name (mkButton "Rec" 16 23) = "Rec") /\
  button_from_press (press (mkButton "Rec" 16 23)) = Some (mkButton "Rec" 16 23).
Proof.
  destruct button_from_name_sound as (_ & Hname).
  apply (Hname "rec arm" (mkButton "Rec" 16 23)).
  - reflexivity.
  - vm_compute. reflexivity.
Defined.

(** ** The callback, beyond the scenarios *)

(** X6. A button message reaches [on_button], once.  For a polytouch
    message whose note is one of 0..23 the callback makes exactly one
    hook call: [on_button], with the registry button that has this note
    as its press code and with [value != 0] as the state; it raises
    nothing and touches nothing else. *)
Theorem callback_button_dispatch (s : Session) (note value : Z) :
  0 <= note <= 23 ->
  exists b : Button,
    b ∈ BUTTONS /\ press b = note /\
    _message_callback (polytouch note value) s =
      (Ok (), with_app (calls s ++ [call_on_button b (negb (value =? 0))]) s).
Proof.
  intros Hnote.
  assert (Hin : note ∈ range 24) by (apply elem_of_range; lia).
  destruct (proj1 (Forall_forall _ _) (proj2 press_codes_are_0_to_23) note Hin) as [b Hb].
  exists b. destruct (press_lookup_sound _ _ Hb) as [Hmem Hpress].
  split; [done|]. split; [done|].
  by rewrite (callback_button s note value b Hb).
Qed.

Lemma callback_button_dispatch_witness :
  exists b : Button,
    b ∈ BUTTONS /\ press b = 23 /\
    _message_callback (polytouch 23 0) (__init__ []) =
      (Ok (), with_app (calls (__init__ []) ++ [call_on_button b (negb (0 =? 0))])
                (__init__ [])).
Proof. apply (callback_button_dispatch (__init__ []) 23 0). lia. Defined.

Section Unhandled.
Context {App : Type} `{Hooks App}.

(** X7. Messages the callback has no case for, whatever the hooks are.
    A polytouch message whose note is neither a press code (0..23) nor
    127 is dropped without a trace: the object is as before and nothing
    is printed.  A control-change message whose control is neither 0 nor
    32, and a message of any other type, is printed as unhandled and
    changes nothing else.  None of them raises, and no hook runs. *)
Theorem callback_unhandled :
  (forall (s : FaderPort App) (note value : Z),
     ~ 0 <= note <= 23 -> note <> 127 ->
     _message_callback (polytouch note value) s = (Ok (), s)) /\
  (forall (s : FaderPort App) (control value : Z),
     control <> 0 -> control <> 32 ->
     _message_callback (control_change control value) s =
       (Ok (), with_stdout (stdout s ++ [control_change control value]) s)) /\
  (forall (s : FaderPort App) (type : string),
     _message_callback (other_type type) s =
       (Ok (), with_stdout (stdout s ++ [other_type type]) s)).
Proof.
  split; [|split].
  - intros s note value Hnote H127. unfold _message_callback.
    destruct (button_from_press note) as [b|] eqn:Hb.
    + exfalso. apply Hnote.
      destruct (press_lookup_sound _ _ Hb) as [Hmem <-].
      by apply (proj1 (Forall_forall _ _) (proj1 press_codes_are_0_to_23)).
    + by rewrite (proj2 (Z.eqb_neq note 127)).
  - intros s control value H0 H32. unfold _message_callback.
    by rewrite (proj2 (Z.eqb_neq control 0)), (proj2 (Z.eqb_neq control 32)).
  - reflexivity.
Qed.
End Unhandled.

Lemma callback_unhandled_witness :
  _message_callback (polytouch 64 1) (__init__ ([] : list HookCall))
    = (Ok (), __init__ []) /\
  _message_callback (control_change 7 100) (__init__ ([] : list HookCall))
    = (Ok (), with_stdout (stdout (__init__ ([] : list HookCall)) ++ [control_change 7 100])
                (__init__ [])).
Proof.
  destruct (@callback_unhandled (list HookCall) Recorder) as (Hnote & Hcontrol & _).
  split.
  - apply (Hnote (__init__ []) 64 1); lia.
  - apply (Hcontrol (__init__ []) 7 100); lia.
Defined.

Ltac step_with s' new :=
  exists s', new;
  split; [reflexivity|]; split; [reflexivity|];
  split; [by rewrite ?app_nil_r|]; split; [simpl; lia|].

(** One message, with the recording hooks: what can change. *)
Lemma callback_step (m : Message) (s : Session) :
  exists (s' : Session) (new : list HookCall),
    _message_callback m s = (Ok (), s') /\
    outport s' = outport s /\
    calls s' = calls s ++ new /\
    (length new <= 1)%nat /\
    (from_mido m -> session_ok s -> session_ok s').
Proof.
  destruct m as [note value|control value|pitch|type].
  - unfold _message_callback. destruct (button_from_press note) as [b|].
    + step_with (with_app (calls s ++ [call_on_button b (negb (value =? 0))]) s)
                [call_on_button b (negb (value =? 0))].
      by intros _ Hs.
    + destruct (note =? 127).
      * step_with (with_app (calls s ++ [call_on_fader_touch (negb (value =? 0))]) s)
                  [call_on_fader_touch (negb (value =? 0))].
        by intros _ Hs.
      * step_with s ([] : list HookCall). by intros _ Hs.
  - unfold _message_callback. destruct (control =? 0); [|destruct (control =? 32)].
    + step_with (with_msb value s) ([] : list HookCall).
      intros [_ Hv] [_ Hf]. by split.
    + step_with (with_app (calls s ++ [call_on_fader (Z.lor (_msb s ≪ 7) value ≫ 4)])
                   (with_fader (Z.lor (_msb s ≪ 7) value ≫ 4) s))
                [call_on_fader (Z.lor (_msb s ≪ 7) value ≫ 4)].
      intros [_ Hv] [Hm _]. split; [exact Hm|]. by apply combine_range.
    + step_with (with_stdout (stdout s ++ [control_change control value]) s)
                ([] : list HookCall).
      by intros _ Hs.
  - step_with (with_app (calls s ++ [call_on_rotary (if pitch <? 0 then 1 else -1)]) s)
              [call_on_rotary (if pitch <? 0 then 1 else -1)].
    by intros _ Hs.
  - step_with (with_stdout (stdout s ++ [other_type type]) s) ([] : list HookCall).
    by intros _ Hs.
Qed.

(** X8. The callback, with hooks that only record, never raises and
    never sends: after any sequence of messages the run has returned
    normally, the output port is as it was, and the log of hook calls is
    the old log followed by at most one call per message. *)
Theorem callback_run_is_quiet (msgs : list Message) (s : Session) :
  (receive msgs s).1 = Ok () /\
  outport (after (receive msgs) s) = outport s /\
  exists new : list HookCall,
    calls (after (receive msgs) s) = calls s ++ new /\
    (length new <= length msgs)%nat.
Proof.
  unfold after. revert s. induction msgs as [|m msgs IH]; intros s.
  - rewrite receive_nil. repeat split. exists []. by rewrite app_nil_r.
  - rewrite receive_cons.
    destruct (callback_step m s) as (s' & new & -> & Hout & Hcalls & Hlen & _).
    destruct (IH s') as (Hok & Hout' & new' & Hcalls' & Hlen').
    split; [exact Hok|]. split; [by rewrite Hout'|].
    exists (new ++ new'). split.
    + by rewrite Hcalls', Hcalls, <- app_assoc.
    + rewrite length_app. simpl. lia.
Qed.

(** X9. The callback keeps the decoding state well-formed.  If the
    pending half is a data byte and the cached position lies in 0..1023,
    then both still hold after any sequence of messages as [mido]
    delivers them (data bytes in 0..127). *)
Theorem callback_keeps_session_ok (msgs : list Message) (s : Session) :
  Forall from_mido msgs -> session_ok s ->
  session_ok (after (receive msgs) s).
Proof.
  unfold after. intros Hmsgs. revert s.
  induction Hmsgs as [|m msgs Hm _ IH]; intros s Hs.
  - by rewrite receive_nil.
  - rewrite receive_cons.
    destruct (callback_step m s) as (s' & new & -> & _ & _ & _ & Hok).
    apply IH. by apply Hok.
Qed.

Lemma callback_keeps_session_ok_witness :
  session_ok (after (receive [control_change 0 127; control_change 32 127;
                              polytouch 127 1; pitchwheel (-8192)])
                (__init__ ([] : list HookCall))).
Proof.
  apply (callback_keeps_session_ok _ (__init__ [])).
  - repeat constructor; simpl; unfold data_byte; lia.
  - repeat split; simpl; lia.
Defined.

(** ** Sending: how the control operations compose *)

Section Sending.
Context {App : Type}.

Lemma with_outport_same (s : FaderPort App) (sent : list Message) :
  outport s = Some sent -> with_outport (Some (sent ++ [])) s = s.
Proof. intros Hs. rewrite app_nil_r, <- Hs. by destruct s. Qed.

Lemma sends_ret : sends (mret () : M App unit) [].
Proof. intros s sent Hs. by rewrite with_outport_same. Qed.

Lemma sends_sleep : sends (time_sleep : M App unit) [].
Proof. exact sends_ret. Qed.

Lemma sends_seq (m1 m2 : M App unit) (l1 l2 : list Message) :
  sends m1 l1 -> sends m2 l2 -> sends (m1 ;; m2) (l1 ++ l2).
Proof.
  intros H1 H2 s sent Hs. unfold mbind, M_bind.
  rewrite (H1 s sent Hs).
  rewrite (H2 (with_outport (Some (sent ++ l1)) s) (sent ++ l1) eq_refl).
  by rewrite <- app_assoc.
Qed.

Lemma sends_for_each {A} (l : list A) (body : A -> M App unit)
    (msgs : A -> list Message) :
  (forall x, x ∈ l -> sends (body x) (msgs x)) ->
  sends (for_each l body) (concat (map msgs l)).
Proof.
  induction l as [|x l IH]; intros Hbody.
  - exact sends_ret.
  - cbn [for_each map concat]. apply sends_seq.
    + apply Hbody. by left.
    + apply IH. intros y Hy. apply Hbody. by right.
Qed.

Lemma sends_light_on (b : Button) : sends (light_on b : M App unit) [on_message b].
Proof. intros s sent Hs. by apply light_on_open. Qed.

Lemma sends_light_off (b : Button) : sends (light_off b : M App unit) [off_message b].
Proof. intros s sent Hs. unfold light_off, outport_send. by rewrite Hs. Qed.

Lemma concat_map_singleton {A B} (f : A -> B) (l : list A) :
  concat (map (fun x => [f x]) l) = map f l.
Proof. induction l as [|x l IH]; [done|]. cbn. by rewrite IH. Qed.

Lemma sends_all_on : sends (all_on : M App unit) (map on_message BUTTONS).
Proof.
  rewrite <- concat_map_singleton. apply sends_for_each.
  intros b _. apply sends_light_on.
Qed.

Lemma sends_all_off : sends (all_off : M App unit) (map off_message BUTTONS).
Proof.
  rewrite <- concat_map_singleton. apply sends_for_each.
  intros b _. apply sends_light_off.
Qed.

Lemma glyph_messages_buttons (glyph : list Z) (bs : list Button) :
  Forall2 (fun i b => list_getitem BUTTONS i = Ok b) glyph bs ->
  glyph_messages glyph = map on_message bs.
Proof.
  induction 1 as [|i b glyph bs Hb _ IH]; [done|].
  unfold glyph_messages in *. cbn [flat_map map]. by rewrite Hb, IH.
Qed.

Lemma sends_char_on (c : string) : sends (char_on c : M App unit) (char_messages c).
Proof.
  intros s sent Hs. unfold char_messages.
  destruct (CHARACTERS !! str_upper c) as [glyph|] eqn:E.
  - destruct (glyph_buttons glyph (glyphs_in_bounds _ _ E)) as [bs Hbs].
    rewrite (char_on_supported c glyph s E), (glyph_messages_buttons glyph bs Hbs).
    by apply light_glyph_open.
  - rewrite (char_on_unsupported c s E). by rewrite with_outport_same.
Qed.

(** Failing on a session that was never opened. *)
Lemma fails_seq (m1 m2 : M App unit) : fails_unopened m1 -> fails_unopened (m1 ;; m2).
Proof. intros H1 s Hs. unfold mbind, M_bind. by rewrite (H1 s Hs). Qed.

Lemma fails_for_each {A} (x : A) (l : list A) (body : A -> M App unit) :
  fails_unopened (body x) -> fails_unopened (for_each (x :: l) body).
Proof. intros Hx. cbn [for_each]. by apply fails_seq. Qed.

Lemma fails_light_on (b : Button) : fails_unopened (light_on b : M App unit).
Proof. intros s Hs. unfold light_on, outport_send. by rewrite Hs. Qed.

Lemma fails_light_off (b : Button) : fails_unopened (light_off b : M App unit).
Proof. intros s Hs. unfold light_off, outport_send. by rewrite Hs. Qed.
End Sending.

(** ** Reading the log *)

Lemma last_told_app (note : Z) (l1 l2 : list Message) :
  last_told note (l1 ++ l2) =
  foldl (fun acc m => match m with
                      | polytouch n v => if n =? note then Some v else acc
                      | _ => acc
                      end) (last_told note l1) l2.
Proof. unfold last_told. by rewrite foldl_app. Qed.

(** After a run of messages that all carry the value [v] to lights,
    every light addressed in the run was last told [v]. *)
Lemma last_told_run (note v : Z) (bs : list Button) (log : list Message) :
  note ∈ map light bs ->
  last_told note (log ++ map (fun b => polytouch (light b) v) bs) = Some v.
Proof.
  rewrite last_told_app. generalize (last_told note log). intros acc Hin.
  assert (Hgen : forall acc,
            acc = Some v \/ note ∈ map light bs ->
            foldl (fun acc m => match m with
                                | polytouch n v => if n =? note then Some v else acc
                                | _ => acc
                                end) acc (map (fun b => polytouch (light b) v) bs) = Some v).
  { clear. induction bs as [|b bs IH]; intros acc Hacc.
    - destruct Hacc as [->|Hin]; [done|]. by apply elem_of_nil in Hin.
    - cbn [map foldl]. apply IH.
      destruct (Z.eqb_spec (light b) note) as [Heq|Hne]; [by left|].
      destruct Hacc as [->|Hin]; [by left|]. right.
      cbn [map] in Hin. apply elem_of_cons in Hin as [->|Hin]; [done|exact Hin]. }
  apply Hgen. by right.
Qed.

Lemma light_codes_are_0_to_23 :
  Forall (fun b => 0 <= light b <= 23) BUTTONS /\
  Forall (fun n => n ∈ map light BUTTONS) (range 24).
Proof. split; apply (bool_decide_unpack _); by vm_compute. Qed.

(** X10. [all_off] and [all_on] reach every light, once.  On an open
    session each of them returns normally having sent exactly 24
    messages, one per button of [BUTTONS] and in that order, carrying
    value 0 for [all_off] and value 1 for [all_on], and changes nothing
    else.  The notes of these messages are the light codes 0..23, each
    exactly once.  So whatever was sent before, after [all_off] every one
    of the 24 lights was last told 0, and after [all_on] it was last
    told 1. *)
Theorem all_off_all_on_reach_every_light {App : Type} :
  sends (all_off : M App unit) (map off_message BUTTONS) /\
  sends (all_on : M App unit) (map on_message BUTTONS) /\
  length (map off_message BUTTONS) = 24%nat /\
  NoDup (map light BUTTONS) /\
  (forall n : Z, n ∈ map light BUTTONS <-> 0 <= n <= 23) /\
  (forall (log : list Message) (n : Z), 0 <= n <= 23 ->
     last_told n (log ++ map off_message BUTTONS) = Some 0 /\
     last_told n (log ++ map on_message BUTTONS) = Some 1).
Proof.
  assert (Hcodes : forall n : Z, n ∈ map light BUTTONS <-> 0 <= n <= 23).
  { intros n. split.
    - intros Hn. apply list_elem_of_fmap in Hn as (b & -> & Hb). revert b Hb.
      apply Forall_forall, light_codes_are_0_to_23.
    - intros Hn. assert (Hin : n ∈ range 24) by (apply elem_of_range; lia).
      clear Hn. revert n Hin. apply Forall_forall, light_codes_are_0_to_23. }
  split; [exact sends_all_off|]. split; [exact sends_all_on|].
  split; [reflexivity|]. split; [exact light_codes_unique|]. split; [exact Hcodes|].
  intros log n Hn. apply Hcodes in Hn.
  split; [exact (last_told_run n 0 BUTTONS log Hn) | exact (last_told_run n 1 BUTTONS log Hn)].
Qed.

Lemma all_off_all_on_reach_every_light_witness :
  all_off (with_outport (Some [polytouch 16 1]) (__init__ ())) =
    (Ok (), with_outport (Some ([polytouch 16 1] ++ map off_message BUTTONS))
              (with_outport (Some [polytouch 16 1]) (__init__ ()))) /\
  last_told 16 ([polytouch 16 1] ++ map off_message BUTTONS) = Some 0.
Proof.
  destruct (@all_off_all_on_reach_every_light unit) as (Hoff & _ & _ & _ & _ & Hlast).
  split.
  - apply (Hoff (with_outport (Some [polytouch 16 1]) (__init__ ())) [polytouch 16 1]).
    reflexivity.
  - apply (Hlast [polytouch 16 1] 16). lia.
Defined.

(** ** The display effects *)

Section EffectsSend.
Context {App : Type}.

Lemma sends_as (m : M App unit) (l l' : list Message) :
  sends m l -> l = l' -> sends m l'.
Proof. by intros H <-. Qed.

Lemma sends_snake :
  sends (snake : M App unit) (map on_message BUTTONS ++ map off_message (rev BUTTONS)).
Proof.
  unfold snake. apply sends_seq.
  - apply (sends_as _ (concat (map (fun b => [on_message b] ++ []) BUTTONS)));
      [|reflexivity].
    apply sends_for_each. intros b _.
    apply sends_seq; [apply sends_light_on | apply sends_sleep].
  - apply (sends_as _ (concat (map (fun b => [off_message b] ++ []) (rev BUTTONS))));
      [|reflexivity].
    apply sends_for_each. intros b _.
    apply sends_seq; [apply sends_light_off | apply sends_sleep].
Qed.

Lemma sends_blink_once :
  sends (all_on ;; time_sleep ;; all_off ;; time_sleep : M App unit)
        (map on_message BUTTONS ++ map off_message BUTTONS).
Proof.
  apply (sends_as _ (map on_message BUTTONS ++ [] ++ map off_message BUTTONS ++ []));
    [|reflexivity].
  apply sends_seq; [apply sends_all_on|].
  apply sends_seq; [apply sends_sleep|].
  apply sends_seq; [apply sends_all_off | apply sends_sleep].
Qed.

Lemma concat_map_const {A B} (c : list B) (l : list A) :
  concat (map (fun _ => c) l) = concat (replicate (length l) c).
Proof. induction l as [|x l IH]; [done|]. cbn. by rewrite IH. Qed.

Lemma range_length (n : Z) : length (range n) = Z.to_nat n.
Proof. unfold range. by rewrite length_map, length_seq. Qed.

Lemma sends_blink (n : Z) :
  sends (blink n : M App unit)
        (concat (replicate (Z.to_nat n)
                   (map on_message BUTTONS ++ map off_message BUTTONS))).
Proof.
  unfold blink. rewrite <- range_length, <- concat_map_const.
  apply sends_for_each. intros _ _. apply sends_blink_once.
Qed.

Lemma sends_countdown :
  sends (countdown : M App unit)
        (concat (map (fun c => char_messages c ++ map off_message BUTTONS)
                     ["5"; "4"; "3"; "2"; "1"])).
Proof.
  unfold countdown. cbn [str_chars].
  apply (sends_as _ (concat (map (fun c => char_messages c ++ [] ++
                                           map off_message BUTTONS ++ [])
                                 ["5"; "4"; "3"; "2"; "1"]))).
  - apply sends_for_each. intros c _.
    apply sends_seq; [apply sends_char_on|].
    apply sends_seq; [apply sends_sleep|].
    apply sends_seq; [apply sends_all_off | apply sends_sleep].
  - cbn [map]. by rewrite !app_nil_r.
Qed.
End EffectsSend.

Lemma light_of_rev_BUTTONS (n : Z) : 0 <= n <= 23 -> n ∈ map light (rev BUTTONS).
Proof.
  intros Hn. assert (Hin : n ∈ range 24) by (apply elem_of_range; lia).
  clear Hn. revert n Hin. apply Forall_forall.
  apply (bool_decide_unpack _). by vm_compute.
Qed.

Lemma light_of_BUTTONS (n : Z) : 0 <= n <= 23 -> n ∈ map light BUTTONS.
Proof.
  intros Hn. assert (Hin : n ∈ range 24) by (apply elem_of_range; lia).
  clear Hn. revert n Hin. apply Forall_forall, light_codes_are_0_to_23.
Qed.

(** X11. [snake] lights the buttons in order and turns them off in
    reverse, and finishes with all lights off.  On an open session it
    returns normally having sent 48 messages: the light-on message of
    every button in the order of [BUTTONS], then the light-off message of
    every button in the reverse order; nothing else changes.  Whatever
    was sent before, every light 0..23 was last told 0 afterwards.  On a
    session that was never opened it raises [AttributeError] and leaves
    the object as it was. *)
Theorem snake_on_then_off_reversed {App : Type} :
  sends (snake : M App unit) (map on_message BUTTONS ++ map off_message (rev BUTTONS)) /\
  length (map on_message BUTTONS ++ map off_message (rev BUTTONS)) = 48%nat /\
  (forall (log : list Message) (n : Z), 0 <= n <= 23 ->
     last_told n (log ++ map on_message BUTTONS ++ map off_message (rev BUTTONS)) = Some 0) /\
  fails_unopened (snake : M App unit).
Proof.
  split; [exact sends_snake|]. split; [reflexivity|]. split.
  - intros log n Hn. rewrite app_assoc.
    apply (last_told_run n 0 (rev BUTTONS)). by apply light_of_rev_BUTTONS.
  - unfold snake. apply fails_seq. unfold BUTTONS at 1.
    apply fails_for_each, fails_seq, fails_light_on.
Qed.

Lemma snake_on_then_off_reversed_witness :
  snake (with_outport (Some []) (__init__ ())) =
    (Ok (), with_outport (Some ([] ++ map on_message BUTTONS ++ map off_message (rev BUTTONS)))
              (with_outport (Some []) (__init__ ()))) /\
  snake (__init__ ()) = (Raise AttributeError, __init__ ()).
Proof.
  destruct (@snake_on_then_off_reversed unit) as (Hsend & _ & _ & Hfail).
  split.
  - apply (Hsend (with_outport (Some []) (__init__ ())) []). reflexivity.
  - apply (Hfail (__init__ ())). reflexivity.
Defined.

(** X12. [blink n] repeats all-on, all-off [n] times.  On an open
    session it returns normally having sent, [n] times over, the 24
    light-on messages followed by the 24 light-off messages, so [48 * n]
    messages; for [n <= 0] it sends nothing and leaves the session as it
    was.  For [n > 0] every light 0..23 was last told 0 afterwards, and
    on a session that was never opened the call raises [AttributeError]
    and leaves the object as it was. *)
Theorem blink_repeats_on_off {App : Type} :
  (forall n : Z,
     sends (blink n : M App unit)
           (concat (replicate (Z.to_nat n)
                      (map on_message BUTTONS ++ map off_message BUTTONS))) /\
     length (concat (replicate (Z.to_nat n)
                      (map on_message BUTTONS ++ map off_message BUTTONS)))
       = (48 * Z.to_nat n)%nat) /\
  (forall (n : Z) (s : FaderPort App), n <= 0 -> blink n s = (Ok (), s)) /\
  (forall (n : Z) (log : list Message) (k : Z), 0 < n -> 0 <= k <= 23 ->
     last_told k (log ++ concat (replicate (Z.to_nat n)
                                   (map on_message BUTTONS ++ map off_message BUTTONS)))
       = Some 0) /\
  (forall n : Z, 0 < n -> fails_unopened (blink n : M App unit)).
Proof.
  split; [|split; [|split]].
  - intros n. split; [apply sends_blink|].
    induction (Z.to_nat n) as [|k IH]; [reflexivity|].
    cbn [replicate concat]. rewrite length_app, IH. cbn. lia.
  - intros n s Hn. unfold blink, range.
    replace (Z.to_nat n) with 0%nat by lia. reflexivity.
  - intros n log k Hn Hk.
    destruct (Z.to_nat n) as [|m] eqn:Hm; [lia|].
    rewrite replicate_S_end, concat_app. cbn [concat]. rewrite app_nil_r.
    rewrite !app_assoc.
    apply (last_told_run k 0 BUTTONS). by apply light_of_BUTTONS.
  - intros n Hn. unfold blink, range.
    destruct (Z.to_nat n) as [|m] eqn:Hm; [lia|]. cbn [seq map].
    apply fails_for_each, fails_seq. unfold all_on, BUTTONS.
    apply fails_for_each, fails_light_on.
Qed.

Lemma blink_repeats_on_off_witness :
  blink 0 (__init__ ()) = (Ok (), __init__ ()) /\
  last_told 5 ([polytouch 5 1] ++
               concat (replicate (Z.to_nat 3)
                         (map on_message BUTTONS ++ map off_message BUTTONS))) = Some 0 /\
  blink 3 (__init__ ()) = (Raise AttributeError, __init__ ()).
Proof.
  destruct (@blink_repeats_on_off unit) as (_ & Hzero & Hlast & Hfail).
  split; [|split].
  - apply (Hzero 0 (__init__ ())). lia.
  - apply (Hlast 3 [polytouch 5 1] 5); lia.
  - apply (Hfail 3); [lia | reflexivity].
Defined.

(** X13. [countdown] shows 5, 4, 3, 2, 1 and finishes with all lights
    off.  On an open session it returns normally (no index or key error)
    having sent, for each of the digits 5, 4, 3, 2, 1 in this order, the
    light-on messages of the digit's glyph followed by the 24 light-off
    messages: 178 messages in all; nothing else changes.  Whatever was
    sent before, every light 0..23 was last told 0 afterwards.  On a
    session that was never opened it raises [AttributeError] and leaves
    the object as it was. *)
Theorem countdown_shows_digits {App : Type} :
  sends (countdown : M App unit)
        (concat (map (fun c => char_messages c ++ map off_message BUTTONS)
                     ["5"; "4"; "3"; "2"; "1"])) /\
  length (concat (map (fun c => char_messages c ++ map off_message BUTTONS)
                      ["5"; "4"; "3"; "2"; "1"])) = 178%nat /\
  (forall (log : list Message) (n : Z), 0 <= n <= 23 ->
     last_told n (log ++ concat (map (fun c => char_messages c ++ map off_message BUTTONS)
                                     ["5"; "4"; "3"; "2"; "1"])) = Some 0) /\
  fails_unopened (countdown : M App unit).
Proof.
  split; [exact sends_countdown|]. split; [by vm_compute|]. split.
  - intros log n Hn. cbn [map concat]. rewrite app_nil_r, !app_assoc.
    apply (last_told_run n 0 BUTTONS). by apply light_of_BUTTONS.
  - intros s Hs. destruct s as [o f m st a]. simpl in Hs. subst o.
    by vm_compute.
Qed.

Lemma countdown_shows_digits_witness :
  countdown (with_outport (Some []) (__init__ ())) =
    (Ok (), with_outport
              (Some ([] ++ concat (map (fun c => char_messages c ++ map off_message BUTTONS)
                                       ["5"; "4"; "3"; "2"; "1"])))
              (with_outport (Some []) (__init__ ()))) /\
  countdown (__init__ ()) = (Raise AttributeError, __init__ ()).
Proof.
  destruct (@countdown_shows_digits unit) as (Hsend & _ & _ & Hfail).
  split.
  - apply (Hsend (with_outport (Some []) (__init__ ())) []). reflexivity.
  - apply (Hfail (__init__ ())). reflexivity.
Defined.

(** ** Iterators and [chase] *)

Lemma consume_fields {A} (it : cycle_iter A) (n : nat) :
  cycle_first (consume it n) = cycle_first it /\
  cycle_rest (consume it n) = cycle_rest it /\
  taken (consume it n) = (taken it + n)%nat.
Proof.
  unfold consume. induction n as [|n IH].
  - repeat split. simpl. lia.
  - rewrite Nat.iter_succ.
    set (it' := Nat.iter n _ it) in *. destruct IH as (IH1 & IH2 & IH3).
    simpl. repeat split; [exact IH1 | exact IH2 | rewrite IH3; lia].
Qed.

Lemma consume_next {A} (it : cycle_iter A) (n : nat) :
  consume (next it).2 n = consume it (S n).
Proof. unfold consume. by rewrite Nat.iter_succ_r. Qed.

Lemma next_consume {A} (it : cycle_iter A) (n : nat) :
  (next (consume it n)).1 =
    nth ((taken it + n) mod length (cycle_items it)) (cycle_items it) (cycle_first it).
Proof.
  destruct (consume_fields it n) as (H1 & H2 & H3).
  unfold next, cycle_items. cbn [fst length]. by rewrite H1, H2, H3.
Qed.

(** X14. [consume] advances a cycling iterator by exactly [n] items,
    and the cycle repeats its list for ever: after [consume(it, n)] on an
    iterator that has given out [t] items of a list of length [len], the
    next item is the one at index [(t + n) mod len] of the list.  In
    particular a fresh [cycle] that is advanced by [n] yields item
    [n mod len], and advancing by [len] more changes nothing in what
    comes next. *)
Theorem consume_advances_cycle {A : Type} :
  (forall (it : cycle_iter A) (n : nat),
     (next (consume it n)).1 =
       nth ((taken it + n) mod length (cycle_items it)) (cycle_items it) (cycle_first it) /\
     cycle_items (consume it n) = cycle_items it) /\
  (forall (x : A) (l : list A) (n : nat),
     (next (consume (cycle x l) n)).1 = nth (n mod S (length l)) (x :: l) x) /\
  (forall (it : cycle_iter A) (n : nat),
     (next (consume it (n + length (cycle_items it)))).1 = (next (consume it n)).1).
Proof.
  split; [|split].
  - intros it n. split; [apply next_consume|].
    destruct (consume_fields it n) as (H1 & H2 & _).
    unfold cycle_items. by rewrite H1, H2.
  - intros x l n. by rewrite next_consume.
  - intros it n. rewrite !next_consume. f_equal.
    rewrite Nat.add_assoc.
    rewrite <- (Nat.mul_1_l (length (cycle_items it))) at 1.
    by rewrite Nat.Div0.mod_add.
Qed.

Section ChaseSend.
Context {App : Type}.

Lemma bind_ok {A B} (m : M App A) (k : A -> M App B) (s s' : FaderPort App) (a : A) :
  m s = (Ok a, s') -> (m ≫= k) s = k a s'.
Proof. intros Hm. unfold mbind, M_bind. by rewrite Hm. Qed.

Lemma chase_pass_open (its : list (cycle_iter Button)) (s : FaderPort App)
    (sent : list Message) :
  outport s = Some sent ->
  chase_pass its s =
    (Ok (map (fun it => (next it).2) its),
     with_outport (Some (sent ++ map (fun it => on_message (next it).1) its)) s).
Proof.
  revert s sent. induction its as [|it its IH]; intros s sent Hs.
  - cbn. by rewrite with_outport_same.
  - cbn [chase_pass map].
    rewrite (bind_ok _ _ s _ () (light_on_open _ s sent Hs)).
    rewrite (bind_ok _ _ _ _ _
               (IH (with_outport (Some (sent ++ [polytouch (light (next it).1) 1])) s)
                   (sent ++ [polytouch (light (next it).1) 1]) eq_refl)).
    cbn. by rewrite <- app_assoc.
Qed.

Lemma sends_chase_ticks (xs : list Z) (its : list (cycle_iter Button)) :
  sends (chase_ticks xs its : M App unit)
        (concat (map (fun k => map (fun it => on_message (next (consume it k)).1) its ++
                               map off_message BUTTONS)
                     (seq 0 (length xs)))).
Proof.
  revert its. induction xs as [|x xs IH]; intros its.
  - exact sends_ret.
  - intros s sent Hs. cbn [chase_ticks].
    rewrite (bind_ok _ _ s _ _ (chase_pass_open its s sent Hs)).
    assert (Hrest : sends (time_sleep ;; all_off ;;
                           chase_ticks xs (map (fun it => (next it).2) its) : M App unit)
              ([] ++ map off_message BUTTONS ++
               concat (map (fun k => map (fun it => on_message (next (consume it k)).1)
                                         (map (fun it => (next it).2) its) ++
                                     map off_message BUTTONS)
                           (seq 0 (length xs))))).
    { apply sends_seq; [apply sends_sleep|].
      apply sends_seq; [apply sends_all_off | apply IH]. }
    rewrite (Hrest (with_outport
                      (Some (sent ++ map (fun it => on_message (next it).1) its)) s)
                   (sent ++ map (fun it => on_message (next it).1) its) eq_refl).
    change (with_outport ?o (with_outport ?o' s)) with (with_outport o s).
    apply (f_equal (fun l => (Ok (), with_outport (Some l) s))).
    change (length (x :: xs)) with (S (length xs)).
    rewrite <- cons_seq, <- seq_shift. cbn [map concat].
    rewrite <- !app_assoc. apply (f_equal (List.app sent)).
    apply (f_equal (List.app (map (fun it => on_message (next it).1) its))).
    cbn [List.app]. apply (f_equal (List.app (map off_message BUTTONS))).
    rewrite map_map. apply (f_equal (@concat Message)). apply map_ext. intros k.
    rewrite map_map. apply (f_equal (fun l => l ++ map off_message BUTTONS)).
    apply map_ext. intros it. by rewrite consume_next.
Qed.

Lemma chase_message (it : cycle_iter Button) (k : nat) :
  cycle_items it = chase_seq ->
  on_message (next (consume it k)).1 =
    polytouch (nth ((taken it + k) mod 12) chase_lights 0) 1.
Proof.
  intros Hit.
  rewrite next_consume, Hit. unfold on_message. f_equal.
  change chase_lights with (map light chase_seq).
  change (length chase_seq) with 12%nat.
  rewrite (nth_indep (map light chase_seq) 0 (light (cycle_first it))).
  - by rewrite map_nth.
  - rewrite length_map. change (length chase_seq) with 12%nat.
    apply Nat.mod_upper_bound. lia.
Qed.
End ChaseSend.

Section ChasePattern.
Context {App : Type}.

(** The set-up of [chase] for the four widths it accepts: iterator [i]
    of [n] starts [i * (12 // n)] items into the sequence. *)
Lemma chase_set_up (n : nat) (ticks : Z) (s : FaderPort App) :
  (1 <= n <= 4)%nat ->
  chase (Z.of_nat n) ticks s =
  chase_ticks (range ticks)
    (map (fun i => chase_iter (i * (12 / n))) (seq 0 n)) s.
Proof.
  intros Hn.
  destruct n as [|[|[|[|[|n]]]]]; try lia; vm_compute; reflexivity.
Qed.

Lemma chase_width_default (num_lights ticks : Z) :
  ~ 1 <= num_lights <= 4 -> chase num_lights ticks = (chase 2 ticks : M App unit).
Proof.
  intros Hn. unfold chase.
  assert (E : existsb (Z.eqb num_lights) [1; 2; 3; 4] = false).
  { cbn [existsb].
    destruct (Z.eqb_spec num_lights 1), (Z.eqb_spec num_lights 2),
             (Z.eqb_spec num_lights 3), (Z.eqb_spec num_lights 4);
      first [reflexivity | lia]. }
  rewrite E. reflexivity.
Qed.

Lemma sends_chase (n : nat) (ticks : Z) :
  (1 <= n <= 4)%nat ->
  sends (chase (Z.of_nat n) ticks : M App unit)
        (concat (map (fun x =>
                        map (fun i => polytouch
                                        (nth ((i * (12 / n) + x) mod 12) chase_lights 0) 1)
                            (seq 0 n) ++
                        map off_message BUTTONS)
                     (seq 0 (Z.to_nat ticks)))).
Proof.
  intros Hn s sent Hs. rewrite (chase_set_up n ticks s Hn).
  rewrite (sends_chase_ticks (range ticks) _ s sent Hs).
  apply (f_equal (fun l => (Ok (), with_outport (Some (sent ++ l)) s))).
  rewrite range_length. apply (f_equal (@concat Message)). apply map_ext. intros k.
  apply (f_equal (fun l => l ++ map off_message BUTTONS)).
  rewrite map_map. apply map_ext. intros i.
  by rewrite chase_message.
Qed.
End ChasePattern.

Lemma length_concat_const {A B} (F : A -> list B) (c : nat) (l : list A) :
  (forall x, length (F x) = c) -> length (concat (map F l)) = (length l * c)%nat.
Proof.
  intros HF. induction l as [|x l IH]; [reflexivity|].
  cbn [map concat length]. rewrite length_app, HF, IH. lia.
Qed.

(** X15. The pattern of [chase].  For a width [n] of 1, 2, 3 or 4 and
    on an open session, [chase] returns normally (none of its twelve name
    lookups fails) having sent, for each tick [x] of [0 .. ticks-1] in
    turn: [n] light-on messages, the [i]-th of them (from 0) for the
    button at index [(i * (12 // n) + x) mod 12] of its sequence Chan
    Down, Bank, Chan Up, Output, Off, Undo, Loop, User, Punch, Shift, Mix,
    Read; then the 24 light-off messages of [all_off].  So the [n] lit
    buttons are spread evenly over the ring of twelve and move one place
    per tick; [ticks * (n + 24)] messages in all, and after a run of at
    least one tick every light 0..23 was last told 0. *)
Theorem chase_pattern {App : Type} (n : nat) (ticks : Z) :
  (1 <= n <= 4)%nat ->
  sends (chase (Z.of_nat n) ticks : M App unit)
        (concat (map (fun x =>
                        map (fun i => polytouch
                                        (nth ((i * (12 / n) + x) mod 12) chase_lights 0) 1)
                            (seq 0 n) ++
                        map off_message BUTTONS)
                     (seq 0 (Z.to_nat ticks)))) /\
  chase_lights = map light chase_seq /\
  Forall2 (fun nm b => button_from_name nm = Ok b)
          ["Chan Down"; "Bank"; "Chan Up"; "Output"; "Off"; "Undo";
           "Loop"; "User"; "Punch"; "Shift"; "Mix"; "Read"] chase_seq /\
  length (concat (map (fun x =>
                         map (fun i => polytouch
                                         (nth ((i * (12 / n) + x) mod 12) chase_lights 0) 1)
                             (seq 0 n) ++
                         map off_message BUTTONS)
                      (seq 0 (Z.to_nat ticks))))
    = (Z.to_nat ticks * (n + 24))%nat /\
  (forall (log : list Message) (k : Z), 0 < ticks -> 0 <= k <= 23 ->
     last_told k
       (log ++ concat (map (fun x =>
                              map (fun i => polytouch
                                       (nth ((i * (12 / n) + x) mod 12) chase_lights 0) 1)
                                  (seq 0 n) ++
                              map off_message BUTTONS)
                           (seq 0 (Z.to_nat ticks)))) = Some 0).
Proof.
  intros Hn. split; [by apply sends_chase|]. split; [reflexivity|]. split.
  { unfold chase_seq. repeat (constructor; [by vm_compute|]). constructor. }
  split.
  - rewrite (length_concat_const _ (n + 24)%nat); [by rewrite length_seq|].
    intros x. rewrite length_app, !length_map, length_seq. reflexivity.
  - intros log k Hticks Hk.
    destruct (Z.to_nat ticks) as [|t] eqn:Ht; [lia|].
    rewrite seq_S, map_app, concat_app. cbn [map concat].
    rewrite app_nil_r, !app_assoc.
    apply (last_told_run k 0 BUTTONS). by apply light_of_BUTTONS.
Qed.

Lemma chase_pattern_witness :
  chase 3 2 (with_outport (Some []) (__init__ ())) =
    (Ok (), with_outport
              (Some ([] ++ concat (map (fun x =>
                        map (fun i => polytouch
                                        (nth ((i * (12 / 3) + x) mod 12) chase_lights 0) 1)
                            (seq 0 3) ++
                        map off_message BUTTONS)
                     (seq 0 (Z.to_nat 2)))))
              (with_outport (Some []) (__init__ ()))).
Proof.
  destruct (@chase_pattern unit 3 2) as (Hsend & _); [lia|].
  apply (Hsend (with_outport (Some []) (__init__ ())) []). reflexivity.
Defined.

(** X16. The edges of [chase].  A width that is not 1, 2, 3 or 4 is
    replaced by 2: the call is the same method as with width 2.  With
    [ticks <= 0] nothing happens at all, on any session, open or not: no
    message, no error.  With at least one tick, on a session that was
    never opened, the first light-on raises [AttributeError] and the
    object is left as it was. *)
Theorem chase_edges {App : Type} :
  (forall num_lights ticks : Z,
     ~ 1 <= num_lights <= 4 ->
     chase num_lights ticks = (chase 2 ticks : M App unit)) /\
  (forall (num_lights ticks : Z) (s : FaderPort App),
     ticks <= 0 -> chase num_lights ticks s = (Ok (), s)) /\
  (forall num_lights ticks : Z,
     0 < ticks -> fails_unopened (chase num_lights ticks : M App unit)).
Proof.
  assert (Hwidth : forall num_lights : Z,
            exists n : nat, (1 <= n <= 4)%nat /\
              forall ticks, chase num_lights ticks = (chase (Z.of_nat n) ticks : M App unit)).
  { intros num_lights.
    destruct (decide (1 <= num_lights <= 4)) as [Hin|Hout].
    - exists (Z.to_nat num_lights). split; [lia|]. intros ticks.
      by rewrite Z2Nat.id by lia.
    - exists 2%nat. split; [lia|]. intros ticks. by apply chase_width_default. }
  split; [exact chase_width_default|]. split.
  - intros num_lights ticks s Hticks.
    destruct (Hwidth num_lights) as (n & Hn & ->).
    rewrite (chase_set_up n ticks s Hn). unfold range.
    replace (Z.to_nat ticks) with 0%nat by lia. reflexivity.
  - intros num_lights ticks Hticks s Hs.
    destruct (Hwidth num_lights) as (n & Hn & ->).
    rewrite (chase_set_up n ticks s Hn). unfold range.
    destruct (Z.to_nat ticks) as [|t] eqn:Ht; [lia|].
    destruct n as [|n]; [lia|]. cbn [seq map chase_ticks chase_pass].
    unfold mbind, M_bind, light_on, outport_send. by rewrite Hs.
Qed.

Lemma chase_edges_witness :
  chase 9 5 = (chase 2 5 : M unit unit) /\
  chase 3 0 (__init__ ()) = (Ok (), __init__ ()) /\
  chase 3 1 (__init__ ()) = (Raise AttributeError, __init__ ()).
Proof.
  destruct (@chase_edges unit) as (Hwidth & Hzero & Hfail).
  split; [|split].
  - apply (Hwidth 9 5). lia.
  - apply (Hzero 3 0). lia.
  - apply (Hfail 3 1); [lia | reflexivity].
Defined.

(** ** Port discovery *)

Lemma list_getitem_lookup {A} (l : list A) (i : Z) :
  0 <= i < Z.of_nat (length l) ->
  exists x, l !! Z.to_nat i = Some x /\ list_getitem l i = Ok x.
Proof.
  intros Hi. unfold list_getitem.
  rewrite (proj2 (Z.ltb_ge i 0)) by lia.
  rewrite (proj2 (Z.leb_le 0 i)), (proj2 (Z.ltb_lt i _)) by lia. simpl.
  destruct (lookup_lt_is_Some_2 l (Z.to_nat i)) as [x Hx]; [lia|].
  rewrite Hx. by exists x.
Qed.

Lemma find_input_name_cases (names : list string) (number : Z) :
  (0 <= number ->
   find_faderport_input_name names number =
     Ok (List.filter (fun i => String.prefix "faderport" (str_lower i)) names
           !! Z.to_nat number)) /\
  (number < 0 -> find_faderport_input_name names number = Ok None).
Proof.
  unfold find_faderport_input_name.
  set (ins := List.filter _ names). split; intros Hn.
  - rewrite (proj2 (Z.leb_le 0 number)) by done. cbn [andb].
    destruct (Z.lt_ge_cases number (Z.of_nat (length ins))) as [Hlt|Hge].
    + assert (Hr : 0 <= number < Z.of_nat (length ins)) by lia.
      destruct (list_getitem_lookup ins number Hr) as (x & Hx & Hget).
      rewrite (proj2 (Z.ltb_lt _ _) Hlt), Hget. by rewrite Hx.
    + rewrite (proj2 (Z.ltb_ge _ _) Hge). by rewrite lookup_ge_None_2 by lia.
  - by rewrite (proj2 (Z.leb_gt 0 number)).
Qed.

(** X17. Port discovery selects by position among the matching names.
    Given the port names, [find_faderport_input_name] never raises.  For
    [number >= 0] it returns the name at position [number] (from 0) among
    those names, in their order, whose lower-cased form starts with
    "faderport", and [None] when there are not that many.  For a negative
    [number] it returns [None]: it does not count from the end.  A name
    it returns is one of the given names and matches the prefix.
    [find_faderport_output_name] is the same function of the output
    names. *)
Theorem find_faderport_name_by_position (names : list string) (number : Z) :
  (0 <= number ->
   find_faderport_input_name names number =
     Ok (List.filter (fun i => String.prefix "faderport" (str_lower i)) names
           !! Z.to_nat number)) /\
  (number < 0 -> find_faderport_input_name names number = Ok None) /\
  (forall i : string,
     find_faderport_input_name names number = Ok (Some i) ->
     i ∈ names /\ String.prefix "faderport" (str_lower i) = true) /\
  (find_faderport_input_name names number = Ok None <->
   number < 0 \/
   Z.of_nat (length (List.filter (fun i => String.prefix "faderport" (str_lower i)) names))
     <= number) /\
  find_faderport_output_name names number = find_faderport_input_name names number.
Proof.
  destruct (find_input_name_cases names number) as [Hpos Hneg].
  split; [exact Hpos|]. split; [exact Hneg|]. split; [|split; [|reflexivity]].
  - intros i Hi. destruct (Z.lt_ge_cases number 0) as [Hlt|Hge].
    + by rewrite (Hneg Hlt) in Hi.
    + rewrite (Hpos Hge) in Hi. injection Hi as Hi.
      apply list_elem_of_lookup_2, list_elem_of_In, filter_In in Hi as [Hin Hmatch].
      split; [by apply list_elem_of_In | exact Hmatch].
  - split.
    + intros Hnone. destruct (Z.lt_ge_cases number 0) as [Hlt|Hge]; [by left|right].
      rewrite (Hpos Hge) in Hnone. injection Hnone as Hnone.
      apply lookup_ge_None_1 in Hnone. lia.
    + intros [Hlt|Hge]; [by apply Hneg|].
      rewrite Hpos by lia. f_equal. apply lookup_ge_None_2. lia.
Qed.

Lemma find_faderport_name_by_position_witness :
  find_faderport_input_name ["Midi Through"; "FaderPort MIDI 1"; "faderport 2"] 1 =
    Ok (List.filter (fun i => String.prefix "faderport" (str_lower i))
          ["Midi Through"; "FaderPort MIDI 1"; "faderport 2"] !! Z.to_nat 1) /\
  find_faderport_input_name ["FaderPort MIDI 1"] (-1) = Ok None.
Proof.
  split.
  - destruct (find_faderport_name_by_position
                ["Midi Through"; "FaderPort MIDI 1"; "faderport 2"] 1) as (Hpos & _).
    apply Hpos. lia.
  - destruct (find_faderport_name_by_position ["FaderPort MIDI 1"] (-1)) as (_ & Hneg & _).
    apply Hneg. lia.
Defined.

(** ** The demonstration subclass *)

Lemma test_on_button_run (o : option (list Message)) (f m : Z) (st : list Message)
    (sh cy ex : bool) (out : list Line) (b : Button) (state : bool) :
  test_on_button b state (mkFaderPort o f m st (mkTestState sh cy ex out)) =
  if cy then
    (Ok (), mkFaderPort o f m st
              (mkTestState (if String.eqb (name b) "Shift" then negb sh else sh) cy
                 (if String.eqb (name b) "Off" && negb state then true else ex)
                 (out ++ [line_button (name b) state])))
  else
    match o with
    | Some sent =>
        (Ok (), mkFaderPort (Some (sent ++ [polytouch (light b) (if state then 1 else 0)]))
                  f m st
                  (mkTestState (if String.eqb (name b) "Shift" then negb sh else sh) cy
                     (if String.eqb (name b) "Off" && negb state then true else ex)
                     (out ++ [line_button (name b) state])))
    | None =>
        (Raise AttributeError,
         mkFaderPort None f m st
           (mkTestState (if String.eqb (name b) "Shift" then negb sh else sh) cy
              (if String.eqb (name b) "Off" && negb state then true else ex)
              (out ++ [line_button (name b) state])))
    end.
Proof.
  unfold test_on_button.
  destruct (String.eqb (name b) "Shift"), (String.eqb (name b) "Off"), state, cy, o;
    reflexivity.
Qed.

Lemma test_on_rotary_run (o : option (list Message)) (f m : Z) (st : list Message)
    (sh cy ex : bool) (out : list Line) (d : Z) :
  test_on_rotary d (mkFaderPort o f m st (mkTestState sh cy ex out)) =
  if sh then
    if 0 <? d then
      if f <? 1023 then
        fader_set (f + 1)
          (mkFaderPort o f m st (mkTestState sh cy ex (out ++ [line_pan (0 <? d)])))
      else (Ok (), mkFaderPort o f m st (mkTestState sh cy ex (out ++ [line_pan (0 <? d)])))
    else
      fader_set (f - 1)
        (mkFaderPort o f m st (mkTestState sh cy ex (out ++ [line_pan (0 <? d)])))
  else (Ok (), mkFaderPort o f m st (mkTestState sh cy ex (out ++ [line_pan (0 <? d)]))).
Proof.
  cbv beta iota delta [test_on_rotary mbind M_bind mret M_ret print_line shift fader
                        get__fader with_app outport _fader _msb stdout app
                        _shift cycling should_exit test_stdout].
  destruct sh, (0 <? d), (f <? 1023); reflexivity.
Qed.

(** The fader setter never touches what the subclass added. *)
Lemma fader_set_app {App : Type} (s : FaderPort App) (value : Z) :
  app (fader_set value s).2 = app s /\
  _msb (fader_set value s).2 = _msb s /\
  (forall sent, outport s = Some sent -> (fader_set value s).1 = Ok () /\
                                         is_open (fader_set value s).2).
Proof.
  destruct (outport s) as [sent|] eqn:Hs.
  - rewrite (fader_set_open s sent value Hs). repeat split. by eexists.
  - rewrite (fader_set_unopened s value Hs). by repeat split.
Qed.

Lemma press_names :
  map_Forall (fun k b => String.eqb (name b) "Shift" = (k =? 2) /\
                         String.eqb (name b) "Off" = (k =? 23))
             _button_from_press.
Proof. apply (bool_decide_unpack _). by vm_compute. Qed.

Lemma press_2_23_found (note : Z) :
  button_from_press note = None -> (note =? 2) = false /\ (note =? 23) = false.
Proof.
  intros Hn. split.
  - destruct (Z.eqb_spec note 2) as [->|]; [by vm_compute in Hn | done].
  - destruct (Z.eqb_spec note 23) as [->|]; [by vm_compute in Hn | done].
Qed.

(** One message, with the demonstration hooks: what happens to the
    attributes the subclass added, on any session. *)
Lemma test_step_app (m : Message) (s : TestFaderPort) :
  _shift (app (handled m s)) =
    xorb (_shift (app s))
         (match m with polytouch n _ => n =? 2 | _ => false end) /\
  should_exit (app (handled m s)) =
    should_exit (app s) ||
    (match m with polytouch n v => (n =? 23) && (v =? 0) | _ => false end) /\
  cycling (app (handled m s)) = cycling (app s).
Proof.
  destruct s as [o f ms st [sh cy ex out]]. unfold handled, after.
  destruct m as [note value|control value|pitch|type].
  - unfold _message_callback. destruct (button_from_press note) as [b|] eqn:Hb.
    + change (on_button b (negb (value =? 0))) with (test_on_button b (negb (value =? 0))).
      rewrite test_on_button_run. destruct (press_names _ _ Hb) as [-> ->].
      destruct cy, o, (note =? 2), (note =? 23), (value =? 0), sh, ex; by cbn.
    + destruct (press_2_23_found note Hb) as [-> ->].
      destruct (note =? 127), sh, ex; by cbn.
  - unfold _message_callback.
    destruct (control =? 0); [|destruct (control =? 32)]; destruct sh, ex; by cbn.
  - unfold _message_callback.
    change (on_rotary ?d) with (test_on_rotary d). rewrite test_on_rotary_run.
    destruct sh; [|by destruct ex].
    destruct (0 <? (if pitch <? 0 then 1 else -1)); [destruct (f <? 1023)|];
      try (by destruct ex);
      match goal with |- context [fader_set ?v ?s0] =>
        destruct (fader_set_app s0 v) as (-> & _) end; by destruct ex.
  - by destruct sh, ex.
Qed.

(** One message, with the demonstration hooks, on an open session. *)
Lemma test_step_open (m : Message) (s : TestFaderPort) :
  is_open s ->
  (_message_callback m s).1 = Ok () /\
  is_open (handled m s) /\
  (from_mido m -> session_ok s -> session_ok (handled m s)).
Proof.
  intros [sent Hs]. destruct s as [o f ms st [sh cy ex out]]. simpl in Hs. subst o.
  unfold handled, after.
  destruct m as [note value|control value|pitch|type].
  - unfold _message_callback. destruct (button_from_press note) as [b|].
    + change (on_button b (negb (value =? 0))) with (test_on_button b (negb (value =? 0))).
      rewrite test_on_button_run.
      destruct cy; (split; [done|]; split; [by eexists | by intros _ Hok]).
    + destruct (note =? 127); (split; [done|]; split; [by eexists | by intros _ Hok]).
  - unfold _message_callback.
    destruct (control =? 0); [|destruct (control =? 32)];
      (split; [done|]; split; [by eexists|]).
    + intros [_ Hv] [_ Hf]. by split.
    + intros [_ Hv] [Hm _]. split; [exact Hm|]. by apply combine_range.
    + by intros _ Hok.
  - unfold _message_callback.
    change (on_rotary ?d) with (test_on_rotary d). rewrite test_on_rotary_run.
    destruct sh; [|by (split; [done|]; split; [by eexists | by intros _ Hok])].
    destruct (0 <? (if pitch <? 0 then 1 else -1)); [destruct (f <? 1023)|];
      try (by (split; [done|]; split; [by eexists | by intros _ Hok]));
      match goal with |- context [fader_set ?v ?s0] =>
        rewrite (fader_set_open s0 sent v eq_refl) end;
      (split; [done|]; split; [by eexists|]);
      intros _ [Hm _]; (split; [exact Hm | apply cached_position_range]).
  - split; [done|]. split; [by eexists | by intros _ Hok].
Qed.

Lemma cached_in (v : Z) :
  0 < v < 1024 -> (if (0 <? v) && (v <? 1024) then v else 0) = v.
Proof. intros [? ?]. by rewrite (proj2 (Z.ltb_lt 0 v)), (proj2 (Z.ltb_lt v 1024)). Qed.

Lemma cached_out (v : Z) :
  v <= 0 \/ 1024 <= v -> (if (0 <? v) && (v <? 1024) then v else 0) = 0.
Proof.
  intros [?|?].
  - by rewrite (proj2 (Z.ltb_ge 0 v)).
  - rewrite (proj2 (Z.ltb_ge v 1024)) by done. by rewrite andb_false_r.
Qed.

(** X18. The pan control of the demonstration subclass moves the fader
    only while shift is on.  On an open session with the cached position
    [f] in 0..1023, a pitchwheel message is handled without error and
    prints one line, clockwise exactly when the pitch is negative.  With
    shift off nothing else happens.  With shift on, a negative pitch moves
    the fader up by one and stops at 1023, where nothing is sent any more;
    a pitch of zero or more moves it down by one and stops at 0, where
    the two messages for position 0 are still sent on every tick. *)
Theorem test_rotary_moves_fader_with_shift (s : TestFaderPort)
    (sent : list Message) (pitch : Z) :
  outport s = Some sent -> 0 <= _fader s <= 1023 ->
  (_message_callback (pitchwheel pitch) s).1 = Ok () /\
  test_stdout (app (handled (pitchwheel pitch) s)) =
    test_stdout (app s) ++ [line_pan (pitch <? 0)] /\
  (_shift (app s) = false ->
     _fader (handled (pitchwheel pitch) s) = _fader s /\
     outport (handled (pitchwheel pitch) s) = Some sent) /\
  (_shift (app s) = true -> pitch < 0 ->
     _fader (handled (pitchwheel pitch) s) = Z.min (_fader s + 1) 1023 /\
     outport (handled (pitchwheel pitch) s) =
       Some (if _fader s <? 1023
             then sent ++ [control_change 0 ((_fader s + 1) ≫ 7);
                           control_change 32 (Z.land (_fader s + 1) 127)]
             else sent)) /\
  (_shift (app s) = true -> 0 <= pitch ->
     _fader (handled (pitchwheel pitch) s) = Z.max (_fader s - 1) 0 /\
     outport (handled (pitchwheel pitch) s) =
       Some (sent ++ [control_change 0 (Z.max (_fader s - 1) 0 ≫ 7);
                      control_change 32 (Z.land (Z.max (_fader s - 1) 0) 127)])).
Proof.
  intros Hs Hf. destruct s as [o f ms st [sh cy ex out]]. simpl in Hs, Hf. subst o.
  unfold handled, after, _message_callback.
  change (on_rotary ?d) with (test_on_rotary d). rewrite test_on_rotary_run.
  cbn [_fader app _shift test_stdout].
  destruct (Z.ltb_spec pitch 0) as [Hneg|Hpos].
  - change (0 <? 1) with true. cbn iota.
    destruct sh.
    + destruct (Z.ltb_spec f 1023) as [Hlt|Hge].
      * match goal with |- context [fader_set ?v ?s0] =>
          rewrite (fader_set_open s0 sent v eq_refl) end.
        rewrite (cached_in (f + 1)) by lia.
        cbn. repeat split; try done; intros; try lia.
      * cbn. repeat split; try done; intros; try lia.
    + cbn. repeat split; try done; intros; try lia.
  - change (0 <? -1) with false. cbn iota.
    destruct sh.
    + match goal with |- context [fader_set ?v ?s0] =>
        rewrite (fader_set_open s0 sent v eq_refl) end.
      destruct (Z.le_gt_cases f 1) as [Hle|Hgt].
      * rewrite (cached_out (f - 1)) by lia. rewrite Z.max_r by lia.
        cbn. repeat split; try done; intros; lia.
      * rewrite (cached_in (f - 1)) by lia. rewrite Z.max_l by lia.
        cbn. repeat split; try done; intros; lia.
    + cbn. repeat split; try done; intros; try lia.
Qed.

Lemma test_rotary_moves_fader_with_shift_witness :
  _fader (handled (pitchwheel (-1))
            (mkFaderPort (Some []) 1022 0 [] (mkTestState true false false []))) =
    Z.min (1022 + 1) 1023 /\
  _fader (handled (pitchwheel 1)
            (mkFaderPort (Some []) 0 0 [] (mkTestState true false false []))) =
    Z.max (0 - 1) 0.
Proof.
  split.
  - destruct (test_rotary_moves_fader_with_shift
                (mkFaderPort (Some []) 1022 0 [] (mkTestState true false false []))
                [] (-1)) as (_ & _ & _ & Hup & _); [reflexivity | simpl; lia |].
    apply Hup; [reflexivity | lia].
  - destruct (test_rotary_moves_fader_with_shift
                (mkFaderPort (Some []) 0 0 [] (mkTestState true false false []))
                [] 1) as (_ & _ & _ & _ & Hdown); [reflexivity | simpl; lia |].
    apply Hdown; [reflexivity | lia].
Defined.

Lemma callback_result (m : Message) (s : TestFaderPort) :
  (_message_callback m s).1 = Ok () -> _message_callback m s = (Ok (), handled m s).
Proof.
  unfold handled, after. destruct (_message_callback m s) as [r s']. simpl.
  by intros ->.
Qed.

Lemma test_receive_cons (m : Message) (ms : list Message) (s : TestFaderPort) :
  is_open s -> receive (m :: ms) s = receive ms (handled m s).
Proof.
  intros Hs. unfold receive. rewrite for_each_cons.
  destruct (test_step_open m s Hs) as (Hok & _).
  by rewrite (callback_result m s Hok).
Qed.



(** X20. The demonstration subclass asks to exit on the release of Off,
    and only then.  The release message of the Off button (press code 23,
    value 0) sets [should_exit], on any session; every other message
    leaves [should_exit] as it is; and once set it stays set, whatever
    messages follow. *)
Theorem test_exit_on_off_release :
  (forall s : TestFaderPort,
     should_exit (app (handled (polytouch 23 0) s)) = true) /\
  (forall (s : TestFaderPort) (m : Message),
     m <> polytouch 23 0 ->
     should_exit (app (handled m s)) = should_exit (app s)) /\
  (forall (msgs : list Message) (s : TestFaderPort),
     should_exit (app s) = true ->
     should_exit (app (after (receive msgs) s)) = true).
Proof.
  split; [|split].
  - intros s. destruct (test_step_app (polytouch 23 0) s) as (_ & -> & _).
    apply orb_true_r.
  - intros s m Hm. destruct (test_step_app m s) as (_ & -> & _).
    destruct m as [n v| | |]; try apply orb_false_r.
    destruct (Z.eqb_spec n 23) as [->|]; [|apply orb_false_r].
    destruct (Z.eqb_spec v 0) as [->|]; [done | apply orb_false_r].
  - intros msgs. induction msgs as [|m msgs IH]; intros s Hs; [done|].
    unfold after, receive. rewrite for_each_cons.
    assert (Hm : should_exit (app (handled m s)) = true).
    { destruct (test_step_app m s) as (_ & -> & _). by rewrite Hs. }
    unfold handled, after in Hm.
    destruct (_message_callback m s) as [[[]|e] s']; simpl in Hm |- *.
    + by apply IH.
    + exact Hm.
Qed.

Lemma test_exit_on_off_release_witness :
  should_exit (app (handled (polytouch 23 1) TestFaderPort__init__)) =
    should_exit (app TestFaderPort__init__) /\
  should_exit (app (after (receive [pitchwheel 3; polytouch 5 1])
                      (handled (polytouch 23 0) TestFaderPort__init__))) = true.
Proof.
  destruct test_exit_on_off_release as (Hset & Hother & Hstays).
  split.
  - apply (Hother TestFaderPort__init__ (polytouch 23 1)). discriminate.
  - apply (Hstays [pitchwheel 3; polytouch 5 1]). apply Hset.
Defined.

(** X21. The demonstration subclass never fails on an open session and
    keeps the fader in range.  On an open session, any sequence of
    messages as [mido] delivers them is handled without error; the
    session is still open afterwards; if the pending half was a data byte
    and the cached position was in 0..1023 they still are, whatever the
    pan control and the fader did in between; and [cycling] keeps the
    value it had. *)
Theorem test_session_stays_sound (msgs : list Message) (s : TestFaderPort) :
  is_open s -> Forall from_mido msgs -> session_ok s ->
  (receive msgs s).1 = Ok () /\
  is_open (after (receive msgs) s) /\
  session_ok (after (receive msgs) s) /\
  cycling (app (after (receive msgs) s)) = cycling (app s).
Proof.
  intros Hs Hmsgs. revert s Hs.
  induction Hmsgs as [|m msgs Hm _ IH]; intros s Hs Hok; [done|].
  unfold after. rewrite (test_receive_cons m msgs s Hs).
  destruct (test_step_open m s Hs) as (_ & Hs' & Hok').
  destruct (IH (handled m s) Hs' (Hok' Hm Hok)) as (H1 & H2 & H3 & H4).
  repeat split; try done; try apply H3.
  unfold after in H4. rewrite H4.
  by destruct (test_step_app m s) as (_ & _ & ->).
Qed.

Lemma test_session_stays_sound_witness :
  (receive [polytouch 2 1; pitchwheel (-1); control_change 0 127; control_change 32 127;
            polytouch 23 0]
     (after open TestFaderPort__init__)).1 = Ok () /\
  session_ok (after (receive [polytouch 2 1; pitchwheel (-1); control_change 0 127;
                              control_change 32 127; polytouch 23 0])
                (after open TestFaderPort__init__)).
Proof.
  destruct (test_session_stays_sound
              [polytouch 2 1; pitchwheel (-1); control_change 0 127; control_change 32 127;
               polytouch 23 0]
              (after open TestFaderPort__init__)) as (Hok & _ & Hsound & _).
  - by eexists.
  - repeat constructor; simpl; unfold data_byte; lia.
  - repeat split; simpl; lia.
  - split; [exact Hok | exact Hsound].
Defined.

(** X22. In the demonstration subclass the light of a button follows
    the button.  On an open session on which [cycling] is off, a message
    of the button with press code [note] (0..23) is handled by printing
    one line and sending one message to that button's own light: value 1
    for a press ([value != 0]), value 0 for a release.  The fader is not
    touched. *)
Theorem test_button_light_follows (s : TestFaderPort) (sent : list Message)
    (note value : Z) :
  outport s = Some sent -> cycling (app s) = false -> 0 <= note <= 23 ->
  exists b : Button,
    b ∈ BUTTONS /\ press b = note /\
    outport (handled (polytouch note value) s) =
      Some (sent ++ [polytouch (light b) (if value =? 0 then 0 else 1)]) /\
    test_stdout (app (handled (polytouch note value) s)) =
      test_stdout (app s) ++ [line_button (name b) (negb (value =? 0))] /\
    _fader (handled (polytouch note value) s) = _fader s.
Proof.
  intros Hs Hcy Hnote.
  assert (Hin : note ∈ range 24) by (apply elem_of_range; lia).
  destruct (proj1 (Forall_forall _ _) (proj2 press_codes_are_0_to_23) note Hin) as [b Hb].
  exists b. destruct (press_lookup_sound _ _ Hb) as [Hmem Hpress].
  split; [done|]. split; [done|].
  destruct s as [o f ms st [sh cy ex out]]. simpl in Hs, Hcy. subst o cy.
  unfold handled, after. rewrite (callback_button _ note value b Hb).
  change (on_button b (negb (value =? 0))) with (test_on_button b (negb (value =? 0))).
  rewrite test_on_button_run. by destruct (value =? 0).
Qed.

Lemma test_button_light_follows_witness :
  exists b : Button,
    b ∈ BUTTONS /\ press b = 6 /\
    outport (handled (polytouch 6 127) (after open TestFaderPort__init__)) =
      Some ([] ++ [polytouch (light b) (if 127 =? 0 then 0 else 1)]) /\
    test_stdout (app (handled (polytouch 6 127) (after open TestFaderPort__init__))) =
      test_stdout (app (after open TestFaderPort__init__)) ++
      [line_button (name b) (negb (127 =? 0))] /\
    _fader (handled (polytouch 6 127) (after open TestFaderPort__init__)) =
      _fader (after open TestFaderPort__init__).
Proof.
  apply (test_button_light_follows (after open TestFaderPort__init__) [] 6 127);
    [reflexivity | reflexivity | lia].
Defined.

Lemma button_from_press_exact_witness :
  button_from_press 18 = Some (mkButton "Mute" 18 21) /\ is_Some (button_from_press 0).
Proof.
  destruct button_from_press_exact as (Hexact & Hsome).
  split.
  - apply (Hexact 18 (mkButton "Mute" 18 21)). split; [|reflexivity].
    apply (bool_decide_unpack _). vm_compute. exact I.
  - apply (Hsome 0). lia.
Defined.
